(** * Gipity Scaffold image asset generator: a shallow embedding

    The development follows [gipity-scripts/gipity-image-resizer.py].

    - The filesystem is a finite map from paths to file contents, together
      with a fixed predicate telling which paths can be written.  Directories
      are implicit, so [ensure_directory] has no visible effect.
    - Pillow's pixel operations ([convert], [resize], [paste], ...) are kept
      as constructors of an image expression; their sizes and modes are
      computed, their pixel values are not interpreted.
    - Python exceptions are an explicit [Raise] outcome of a state monad.
    - Pillow's [thumbnail] size computation is done in double precision in
      Python; here it is done over the rationals [Q].  The product
      [size * 0.7] is modelled bit-exactly (round to nearest even on a 53 bit
      significand). *)

From Stdlib Require Import ZArith QArith Qround Qabs Lia Bool List String.
From stdpp Require Import base decidable countable strings pretty gmap.

Set Warnings "-register-all".
Local Open Scope Z_scope.

(** ** Paths *)

(** [PROJECT_ROOT] is an absolute directory: a path built by
    [get_project_path] and a literal such as ["ios/App/..."] (relative to the
    working directory) are never the same string. *)
Inductive path :=
  | Project (rel : string)   (* os.path.join(PROJECT_ROOT, rel) *)
  | Cwd (rel : string).      (* rel, resolved against the working directory *)

#[global] Instance path_eq_dec : EqDecision path.
Proof. solve_decision. Defined.

#[global] Instance path_countable : Countable path.
Proof.
  refine (inj_countable'
            (fun p => match p with Project s => inl s | Cwd s => inr s end)
            (fun x => match x with inl s => Project s | inr s => Cwd s end) _).
  intros []; reflexivity.
Defined.

Definition get_project_path (relative_path : string) : path :=
  Project relative_path.

(** ** Images *)

Inductive pil_mode := RGBA | RGB | LA | L | P | CMYK | Bilevel.

#[global] Instance pil_mode_eq_dec : EqDecision pil_mode.
Proof. solve_decision. Defined.

(** An image is the Pillow expression that produced it. *)
Inductive image :=
  | Decoded (m : pil_mode) (w h : Z) (samples : list Z)
      (* pixel data read from a file *)
  | ConvertRGBA (im : image)                 (* im.convert('RGBA') *)
  | Lanczos (im : image) (w h : Z)           (* im.resize((w,h), LANCZOS) *)
  | NewTransparent (w h : Z)                 (* Image.new('RGBA',(w,h),(0,0,0,0)) *)
  | Paste (canvas fg : image) (x y : Z).     (* canvas.paste(fg,(x,y),fg) *)

#[global] Instance image_eq_dec : EqDecision image.
Proof. solve_decision. Defined.

Fixpoint mode (im : image) : pil_mode :=
  match im with
  | Decoded m _ _ _ => m
  | ConvertRGBA _ => RGBA
  | Lanczos im _ _ => mode im
  | NewTransparent _ _ => RGBA
  | Paste canvas _ _ _ => mode canvas
  end.

Fixpoint width (im : image) : Z :=
  match im with
  | Decoded _ w _ _ => w
  | ConvertRGBA im => width im
  | Lanczos _ w _ => w
  | NewTransparent w _ => w
  | Paste canvas _ _ _ => width canvas
  end.

Fixpoint height (im : image) : Z :=
  match im with
  | Decoded _ _ h _ => h
  | ConvertRGBA im => height im
  | Lanczos _ _ h => h
  | NewTransparent _ h => h
  | Paste canvas _ _ _ => height canvas
  end.

Definition img_size (im : image) : Z * Z := (width im, height im).

(** ** [Image.thumbnail]: the size computation *)

Module Thumbnail.

(** [max(min(math.floor(number), math.ceil(number), key=key), 1)]: Python's
    [min] returns the first of its arguments whose key is minimal. *)
Definition round_aspect (number : Q) (key : Z -> Q) : Z :=
  let lo := Qfloor number in
  let hi := Qceiling number in
  Z.max (if Qle_bool (key lo) (key hi) then lo else hi) 1.

(** [preserve_aspect_ratio()] for an image of size [(w, h)] and a requested
    box [(x, y)]; [None] when the image already fits and is left alone. *)
Definition preserve_aspect_ratio (w h x y : Z) : option (Z * Z) :=
  if (w <=? x) && (h <=? y) then None
  else
    let aspect := (inject_Z w / inject_Z h)%Q in
    if Qle_bool aspect (inject_Z x / inject_Z y)%Q then
      Some (round_aspect (inject_Z y * aspect)%Q
              (fun n => Qabs (aspect - inject_Z n / inject_Z y))%Q, y)
    else
      Some (x, round_aspect (inject_Z x / aspect)%Q
                 (fun n => if n =? 0 then 0%Q
                           else Qabs (aspect - inject_Z x / inject_Z n))%Q).

(** Size of the image after [im.thumbnail((x, y), LANCZOS)]. *)
Definition final_size (w h x y : Z) : Z * Z :=
  match preserve_aspect_ratio w h x y with
  | None => (w, h)
  | Some s => s
  end.

End Thumbnail.

(** [img.thumbnail(box, Image.Resampling.LANCZOS)].  A box with a side that is
    not positive makes Pillow raise (division by zero in the aspect test, or
    "height and width must be > 0" from the resampler), or else the canvas
    allocation that follows it in [resize_image] raises: [None]. *)
Definition thumbnail (im : image) (box : Z * Z) : option image :=
  let '(x, y) := box in
  if (0 <? x) && (0 <? y) then
    let '(fw, fh) := Thumbnail.final_size (width im) (height im) x y in
    if decide ((fw, fh) = img_size im) then Some im
    else Some (Lanczos im fw fh)
  else None.

(** ** [int(n * 0.7)] in double precision *)

Module Float.

(** The double nearest to 0.7 is [mant_0_7 / 2^52]. *)
Definition mant_0_7 : Z := 3152519739159347.

(** Round a positive integer to a 53 bit significand, to nearest, ties to
    even; the result is again an integer (the low bits are cleared). *)
Definition round53 (p : Z) : Z :=
  let e := Z.log2 p + 1 in
  if e <=? 53 then p
  else
    let k := e - 53 in
    let q := Z.shiftr p k in
    let rem := p - Z.shiftl q k in
    let half := Z.shiftl 1 (k - 1) in
    let q' := if (half <? rem) || ((rem =? half) && Z.odd q) then q + 1 else q in
    Z.shiftl q' k.

(** [int(n * 0.7)]: the product is rounded once, then truncated toward 0. *)
Definition int_mul_0_7 (n : Z) : Z :=
  if 0 <=? n then Z.shiftr (round53 (n * mant_0_7)) 52
  else - Z.shiftr (round53 (- n * mant_0_7)) 52.

End Float.

(** ** Files and the filesystem *)

Inductive image_format := PNG | JPEG | GIF | BMP | WEBP.

(** JSON documents, as [json.load] returns them; an object is a Python dict,
    kept as an association list in insertion order. *)
Inductive json :=
  | JNull
  | JBool (b : bool)
  | JNum (n : Z)
  | JStr (s : string)
  | JArr (items : list json)
  | JObj (fields : list (string * json)).

(** The content of a file.  Two files have the same bytes exactly when they
    are the same value: a file that Pillow wrote is identified by what was
    encoded, any other file by its bytes. *)
Inductive file :=
  | Blob (bytes : list Z) (pic : option (image_format * image))
      (* a file found on disk: its bytes and what [Image.open] makes of them *)
  | PngSaved (im : image) (optimize : bool)
      (* written by [im.save(path, 'PNG', optimize=...)] *)
  | TextFile (s : string)                   (* written by [f.write(s)] *)
  | JsonFile (doc : json).                  (* holds [json.dumps(doc, indent=2)] *)

(** What [Image.open] yields. *)
Definition decode (f : file) : option image :=
  match f with
  | Blob _ (Some (_, im)) => Some im
  | PngSaved im _ => Some im
  | _ => None
  end.

(** What [json.load] yields. *)
Definition parse_json (f : file) : option json :=
  match f with
  | JsonFile doc => Some doc
  | _ => None
  end.

(** Messages printed by the script (the f-strings, unformatted). *)
Inductive message :=
  | MsgDirectCopy (output_path : path) (size : Z * Z)
  | MsgCreated (output_path : path) (size : Z * Z)
  | MsgErrorCreating (output_path : path)
  | MsgCount (what : string) (success_count expected : Z)
  | MsgMissingMaster (p : path)
  | MsgText (s : string).

Record world := World {
  files : gmap path file;
  writable : path -> bool;     (* opening the path for writing succeeds *)
  printed : list message;      (* standard output, oldest first *)
}.

Definition set_files (fs : gmap path file) (w : world) : world :=
  World fs (writable w) (printed w).

(** ** Exceptions and the monad of the script *)

Inductive exn :=
  | FileNotFoundError (p : path)
  | UnidentifiedImageError (p : path)
  | SameFileError (p : path)
  | PermissionError (p : path)
  | ValueError
  | TypeError
  | JSONDecodeError (p : path)
  | SystemExit (code : Z).

Inductive outcome (A : Type) :=
  | Ret (a : A)
  | Raise (e : exn).
Arguments Ret {A} a.
Arguments Raise {A} e.

Definition M (A : Type) : Type := world -> outcome A * world.

Definition ret {A} (a : A) : M A := fun w => (Ret a, w).
Definition raise {A} (e : exn) : M A := fun w => (Raise e, w).
Definition bind {A B} (c : M A) (k : A -> M B) : M B :=
  fun w => match c w with
           | (Ret a, w') => k a w'
           | (Raise e, w') => (Raise e, w')
           end.

Notation "x <- c ;; k" := (bind c (fun x => k))
  (at level 100, c at next level, right associativity).
Notation "c ;;; k" := (bind c (fun _ => k))
  (at level 100, right associativity).

(** [except Exception] does not catch [SystemExit]. *)
Definition is_Exception (e : exn) : bool :=
  match e with SystemExit _ => false | _ => true end.

(** [try: c  except Exception as e: h e] *)
Definition try_except {A} (c : M A) (h : exn -> M A) : M A :=
  fun w => match c w with
           | (Raise e, w') => if is_Exception e then h e w' else (Raise e, w')
           | r => r
           end.

Definition print (m : message) : M unit :=
  fun w => (Ret tt, World (files w) (writable w) (printed w ++ [m])).

(** [os.makedirs(path, exist_ok=True)]: directories are implicit. *)
Definition ensure_directory (p : string) : M unit := ret tt.

Definition path_exists (p : path) : M bool :=
  fun w => (Ret (bool_decide (is_Some (files w !! p))), w).

Definition image_open (p : path) : M image :=
  fun w => match files w !! p with
           | None => (Raise (FileNotFoundError p), w)
           | Some f => match decode f with
                       | Some im => (Ret im, w)
                       | None => (Raise (UnidentifiedImageError p), w)
                       end
           end.

Definition write_file (p : path) (f : file) : M unit :=
  fun w => if writable w p then (Ret tt, set_files (<[p := f]> (files w)) w)
           else (Raise (PermissionError p), w).

(** [shutil.copy2(src, dst)] *)
Definition copy2 (src dst : path) : M unit :=
  fun w => match files w !! src with
           | None => (Raise (FileNotFoundError src), w)
           | Some f => if decide (src = dst) then (Raise (SameFileError src), w)
                       else write_file dst f w
           end.

(** [im.save(p, 'PNG', optimize=opt)] *)
Definition save_png (im : image) (p : path) (opt : bool) : M unit :=
  write_file p (PngSaved im opt).

(** [Image.new('RGBA', size, (0, 0, 0, 0))] *)
Definition image_new (size : Z * Z) : M image :=
  if (0 <=? fst size) && (0 <=? snd size)
  then ret (NewTransparent (fst size) (snd size))
  else raise ValueError.

(** [im.resize(size, LANCZOS)] *)
Definition image_resize (im : image) (size : Z * Z) : M image :=
  if (0 <? fst size) && (0 <? snd size)
  then ret (if decide (size = img_size im) then im
            else Lanczos im (fst size) (snd size))
  else raise ValueError.

Definition image_thumbnail (im : image) (box : Z * Z) : M image :=
  match thumbnail im box with
  | Some im' => ret im'
  | None => raise ValueError
  end.

(** ** [resize_image] *)

(** The body of the [try] block; returns what the function returns. *)
Definition resize_image_body (source_path output_path : path)
    (size : option (Z * Z)) (maintain_aspect adaptive_icon_safe_margin : bool)
    : M bool :=
  source_img <- image_open source_path ;;
  (* Handle None size (keep original dimensions) *)
  let size := match size with None => img_size source_img | Some s => s end in
  (* True direct copy optimization for exact size matches *)
  if decide (img_size source_img = size) then
    ensure_directory "dirname(output_path)" ;;;
    copy2 source_path output_path ;;;
    print (MsgDirectCopy output_path size) ;;;
    ret true
  else
    (* Convert to RGBA if not already *)
    let img := if decide (mode source_img = RGBA) then source_img
               else ConvertRGBA source_img in
    img <- (if maintain_aspect then
              img <- (if adaptive_icon_safe_margin then
                        let target_size := (Float.int_mul_0_7 (fst size),
                                            Float.int_mul_0_7 (snd size)) in
                        image_thumbnail img target_size
                      else image_thumbnail img size) ;;
              new_img <- image_new size ;;
              let x := (fst size - width img) / 2 in
              let y := (snd size - height img) / 2 in
              ret (Paste new_img img x y)
            else
              (* Stretch to exact size *)
              image_resize img size) ;;
    (* Save as PNG with transparency and quality preservation *)
    ensure_directory "dirname(output_path)" ;;;
    save_png img output_path false ;;;
    print (MsgCreated output_path size) ;;;
    ret true.

Definition resize_image (source_path output_path : path)
    (size : option (Z * Z)) (maintain_aspect adaptive_icon_safe_margin : bool)
    : M bool :=
  try_except
    (resize_image_body source_path output_path size maintain_aspect
       adaptive_icon_safe_margin)
    (fun e => print (MsgErrorCreating output_path) ;;; ret false).

(** The call [resize_image(src, dst, size)] with the default flags. *)
Definition resize_image_default (source_path output_path : path)
    (size : Z * Z) : M bool :=
  resize_image source_path output_path (Some size) true false.


(** ** Loops and formatting *)

(** [for x in l: s = body(x, s)] *)
Fixpoint for_each {A S : Type} (l : list A) (body : A -> S -> M S) (s : S)
    : M S :=
  match l with
  | [] => ret s
  | x :: l' => s' <- body x s ;; for_each l' body s'
  end.

(** [if c: success_count += 1] *)
Definition count_if (ok : bool) (success_count : Z) : Z :=
  if ok then success_count + 1 else success_count.

Definition len {A} (l : list A) : Z := Z.of_nat (length l).

(** [f"{w}x{h}"] *)
Definition fmt_size (size : Z * Z) : string :=
  pretty (fst size) +:+ "x" +:+ pretty (snd size).

(** ** Web PWA assets *)

Definition web_sizes : list (Z * Z) := [(192, 192); (512, 512)].

Definition generate_web_icons (icon_master_path : path) : M Z :=
  print (MsgText "Generating Web PWA icons...") ;;;
  ensure_directory "public/icons" ;;;
  success_count <-
    for_each web_sizes (fun size success_count =>
      let output_path :=
        get_project_path ("public/icons/icon-" +:+ fmt_size size +:+ ".png") in
      ok <- resize_image_default icon_master_path output_path size ;;
      ret (count_if ok success_count)) 0 ;;
  print (MsgCount "Web PWA icons" success_count (len web_sizes)) ;;;
  ret success_count.

Definition web_logo_variants : list ((Z * Z) * path) :=
  [ ((120, 32), get_project_path "public/icons/logo.png");
    ((120, 32), get_project_path "client/src/assets/logo.png");
    ((240, 64), get_project_path "client/src/assets/logo@2x.png");
    ((360, 96), get_project_path "client/src/assets/logo@3x.png") ].

Definition web_icon_variants : list ((Z * Z) * path) :=
  [ ((64, 64), get_project_path "client/src/assets/icon-64x64.png");
    ((128, 128), get_project_path "client/src/assets/icon-128x128.png") ].

(** The loop [for size, output_path in variants: if resize_image(...)]. *)
Definition resize_variants (master : path) (variants : list ((Z * Z) * path))
    (success_count : Z) : M Z :=
  for_each variants (fun '(size, output_path) success_count =>
    ok <- resize_image master output_path (Some size) true false ;;
    ret (count_if ok success_count)) success_count.

Definition generate_web_logos (logo_master_path : path) : M Z :=
  print (MsgText "Generating Web header logos and responsive assets...") ;;;
  ensure_directory "public/icons" ;;;
  ensure_directory "client/src/assets" ;;;
  let icon_master_path := get_project_path "master-images/icon-master.png" in
  success_count <- resize_variants logo_master_path web_logo_variants 0 ;;
  found <- path_exists icon_master_path ;;
  success_count <-
    (if found then resize_variants icon_master_path web_icon_variants success_count
     else print (MsgText "Warning: icon-master.png not found - skipping icon variants") ;;;
          ret success_count) ;;
  (* Copy 192x192 icon to assets folder for import consistency *)
  let icon_192_path := get_project_path "public/icons/icon-192x192.png" in
  found <- path_exists icon_192_path ;;
  success_count <-
    (if found then
       try_except
         (copy2 icon_192_path (get_project_path "client/src/assets/icon-192x192.png") ;;;
          print (MsgText "Copied: icon-192x192.png to assets folder") ;;;
          ret (success_count + 1))
         (fun e => print (MsgText "Error copying icon to assets") ;;;
                   ret success_count)
     else ret success_count) ;;
  let total_expected := len web_logo_variants + len web_icon_variants + 1 in
  print (MsgCount "Web logos and assets" success_count total_expected) ;;;
  ret success_count.

Definition web_logo_inverted_variants : list ((Z * Z) * path) :=
  [ ((120, 32), get_project_path "public/icons/logo-inverted.png");
    ((120, 32), get_project_path "client/src/assets/logo-inverted.png");
    ((240, 64), get_project_path "client/src/assets/logo-inverted@2x.png");
    ((360, 96), get_project_path "client/src/assets/logo-inverted@3x.png") ].

Definition generate_web_logos_inverted (logo_inverted_master_path : path)
    : M Z :=
  print (MsgText "Generating Web header inverted logos and responsive assets...") ;;;
  ensure_directory "public/icons" ;;;
  ensure_directory "client/src/assets" ;;;
  success_count <-
    resize_variants logo_inverted_master_path web_logo_inverted_variants 0 ;;
  print (MsgCount "Web inverted logos and assets" success_count
           (len web_logo_inverted_variants)) ;;;
  ret success_count.

(** ** iOS assets *)

Definition ios_sizes : list (Z * Z) :=
  [ (1024, 1024); (180, 180); (167, 167); (152, 152); (120, 120); (114, 114);
    (87, 87); (80, 80); (76, 76); (60, 60); (58, 58); (57, 57); (40, 40);
    (29, 29); (20, 20); (144, 144); (72, 72) ].

Definition capacitor_appicon_defaults : list (string * (Z * Z)) :=
  [ ("AppIcon-20x20@1x.png", (20, 20));
    ("AppIcon-20x20@2x-1.png", (40, 40));
    ("AppIcon-20x20@2x.png", (40, 40));
    ("AppIcon-20x20@3x.png", (60, 60));
    ("AppIcon-29x29@1x.png", (29, 29));
    ("AppIcon-29x29@2x-1.png", (58, 58));
    ("AppIcon-29x29@2x.png", (58, 58));
    ("AppIcon-29x29@3x.png", (87, 87));
    ("AppIcon-40x40@1x.png", (40, 40));
    ("AppIcon-40x40@2x-1.png", (80, 80));
    ("AppIcon-40x40@2x.png", (80, 80));
    ("AppIcon-40x40@3x.png", (120, 120));
    ("AppIcon-512@2x.png", (512, 512));
    ("AppIcon-60x60@2x.png", (120, 120));
    ("AppIcon-60x60@3x.png", (180, 180));
    ("AppIcon-76x76@1x.png", (76, 76));
    ("AppIcon-76x76@2x.png", (152, 152));
    ("AppIcon-83.5x83.5@2x.png", (167, 167)) ].

(** The loop [for filename, size in table: if resize_image(master, dir/filename, size)]. *)
Definition resize_named (master : path) (dir : string -> path)
    (table : list (string * (Z * Z))) (success_count : Z) : M Z :=
  for_each table (fun '(filename, size) success_count =>
    ok <- resize_image master (dir filename) (Some size) true false ;;
    ret (count_if ok success_count)) success_count.

Definition generate_ios_icons (icon_master_path : path) : M Z :=
  print (MsgText "Generating iOS app icons...") ;;;
  ensure_directory "ios/App/App/Assets.xcassets/AppIcon.appiconset" ;;;
  (* Generate standard iOS icons *)
  success_count <-
    for_each ios_sizes (fun size success_count =>
      let output_path :=
        Cwd ("ios/App/App/Assets.xcassets/AppIcon.appiconset/icon-"
             +:+ fmt_size size +:+ ".png") in
      ok <- resize_image_default icon_master_path output_path size ;;
      ret (count_if ok success_count)) 0 ;;
  (* Generate Capacitor default naming convention to override defaults *)
  success_count <-
    resize_named icon_master_path
      (fun filename =>
         Cwd ("ios/App/App/Assets.xcassets/AppIcon.appiconset/" +:+ filename))
      capacitor_appicon_defaults success_count ;;
  let total_expected := len ios_sizes + len capacitor_appicon_defaults in
  print (MsgCount "iOS app icons" success_count total_expected) ;;;
  ret success_count.

Definition ios_logo_sizes : list (string * (Z * Z)) :=
  [ ("logo.png", (120, 32)); ("logo@2x.png", (240, 64));
    ("logo@3x.png", (360, 96)); ("logo@4x.png", (480, 128)) ].

Definition generate_ios_logos (logo_master_path : path) : M Z :=
  print (MsgText "Generating iOS header logos...") ;;;
  ensure_directory "ios/App/App/Assets.xcassets/Logo.imageset" ;;;
  success_count <-
    resize_named logo_master_path
      (fun filename =>
         Cwd ("ios/App/App/Assets.xcassets/Logo.imageset/" +:+ filename))
      ios_logo_sizes 0 ;;
  print (MsgCount "iOS header logos" success_count (len ios_logo_sizes)) ;;;
  ret success_count.

Definition ios_logo_inverted_sizes : list (string * (Z * Z)) :=
  [ ("logo-inverted.png", (120, 32)); ("logo-inverted@2x.png", (240, 64));
    ("logo-inverted@3x.png", (360, 96)); ("logo-inverted@4x.png", (480, 128)) ].

Definition generate_ios_logos_inverted (logo_inverted_master_path : path)
    : M Z :=
  print (MsgText "Generating iOS header inverted logos...") ;;;
  ensure_directory "ios/App/App/Assets.xcassets/LogoInverted.imageset" ;;;
  success_count <-
    resize_named logo_inverted_master_path
      (fun filename =>
         Cwd ("ios/App/App/Assets.xcassets/LogoInverted.imageset/" +:+ filename))
      ios_logo_inverted_sizes 0 ;;
  print (MsgCount "iOS header inverted logos" success_count
           (len ios_logo_inverted_sizes)) ;;;
  ret success_count.

(** ** Android assets *)

Definition ic_launcher_xml : string :=
  "<adaptive-icon><background android:drawable='@color/ic_launcher_background'/><foreground android:drawable='@mipmap/ic_launcher_foreground'/></adaptive-icon>".

Definition ic_launcher_round_xml : string := ic_launcher_xml.

(** [with open(p, 'w') as f: f.write(s)] *)
Definition write_text (p : path) (s : string) : M unit :=
  write_file p (TextFile s).

(** No [try] here: a failing write propagates to the caller. *)
Definition create_android_adaptive_icon_xmls : M unit :=
  print (MsgText "Creating Android adaptive icon XML files...") ;;;
  ensure_directory "android/app/src/main/res/mipmap-anydpi-v26" ;;;
  write_text
    (get_project_path "android/app/src/main/res/mipmap-anydpi-v26/ic_launcher.xml")
    ic_launcher_xml ;;;
  write_text
    (get_project_path "android/app/src/main/res/mipmap-anydpi-v26/ic_launcher_round.xml")
    ic_launcher_round_xml.

Definition android_densities : list (string * Z) :=
  [ ("ldpi", 36); ("mdpi", 48); ("hdpi", 72); ("xhdpi", 96);
    ("xxhdpi", 144); ("xxxhdpi", 192) ].

(** The body of the loop over [android_densities]. *)
Definition android_icons_for_density (icon_master_path : path)
    (entry : string * Z) (success_count : Z) : M Z :=
  let '(density, size) := entry in
  let dir_path := "android/app/src/main/res/mipmap-" +:+ density in
  ensure_directory dir_path ;;;
  (* Standard launcher icon *)
  let output_path := Cwd (dir_path +:+ "/ic_launcher.png") in
  ok <- resize_image_default icon_master_path output_path (size, size) ;;
  let success_count := count_if ok success_count in
  (* Round launcher icon *)
  let output_path_round := Cwd (dir_path +:+ "/ic_launcher_round.png") in
  ok <- resize_image_default icon_master_path output_path_round (size, size) ;;
  let success_count := count_if ok success_count in
  (* Foreground for adaptive icons (apply 70% safe margin) *)
  let output_path_fg := Cwd (dir_path +:+ "/ic_launcher_foreground.png") in
  ok <- resize_image icon_master_path output_path_fg (Some (size, size))
          true true ;;
  let success_count := count_if ok success_count in
  (* Background for adaptive icons (transparent background) *)
  let output_path_bg := Cwd (dir_path +:+ "/ic_launcher_background.png") in
  try_except
    (bg_img <- image_new (size, size) ;;
     save_png bg_img output_path_bg true ;;;
     ret (success_count + 1))
    (fun e => print (MsgErrorCreating output_path_bg) ;;; ret success_count).

Definition generate_android_icons (icon_master_path : path) : M Z :=
  print (MsgText "Generating Android app icons...") ;;;
  success_count <-
    for_each android_densities (android_icons_for_density icon_master_path) 0 ;;
  (* Create Play Store icon *)
  ensure_directory "android/app/src/main/res/mipmap-xxxhdpi" ;;;
  let play_store_path :=
    Cwd "android/app/src/main/res/mipmap-xxxhdpi/ic_launcher_playstore.png" in
  ok <- resize_image_default icon_master_path play_store_path (512, 512) ;;
  let success_count := count_if ok success_count in
  (* Create adaptive icon XML files *)
  create_android_adaptive_icon_xmls ;;;
  let success_count := success_count + 2 in
  print (MsgCount "Android app icons" success_count
           (len android_densities * 4 + 3)) ;;;
  ret success_count.

(** The density scales are 0.75, 1.0, 1.5, 2.0, 3.0 and 4.0: all of them, and
    their products with 120 and 32, are exact in double precision. *)
Definition android_logo_densities : list (string * Q) :=
  [ ("ldpi", 3 # 4); ("mdpi", 1); ("hdpi", 3 # 2); ("xhdpi", 2);
    ("xxhdpi", 3); ("xxxhdpi", 4) ]%Q.

(** [int(base * scale)] for a non-negative product. *)
Definition int_scaled (base : Z) (scale : Q) : Z :=
  Qfloor (inject_Z base * scale).

Definition generate_android_logos_named (title label filename : string)
    (logo_master_path : path) : M Z :=
  print (MsgText title) ;;;
  success_count <-
    for_each android_logo_densities (fun '(density, scale) success_count =>
      let dir_path := "android/app/src/main/res/drawable-" +:+ density in
      ensure_directory dir_path ;;;
      (* Calculate scaled dimensions from 120x32 base *)
      let scaled_width := int_scaled 120 scale in
      let scaled_height := int_scaled 32 scale in
      let output_path := get_project_path (dir_path +:+ "/" +:+ filename) in
      ok <- resize_image logo_master_path output_path
              (Some (scaled_width, scaled_height)) true false ;;
      ret (count_if ok success_count)) 0 ;;
  (* Create base logo in drawable folder at 1x size *)
  ensure_directory "android/app/src/main/res/drawable" ;;;
  let base_logo_path :=
    get_project_path ("android/app/src/main/res/drawable/" +:+ filename) in
  ok <- resize_image logo_master_path base_logo_path (Some (120, 32)) true false ;;
  let success_count := count_if ok success_count in
  print (MsgCount label success_count (len android_logo_densities + 1)) ;;;
  ret success_count.

Definition generate_android_logos : path -> M Z :=
  generate_android_logos_named "Generating Android header logos..."
    "Android header logos" "logo.png".

Definition generate_android_logos_inverted : path -> M Z :=
  generate_android_logos_named "Generating Android header inverted logos..."
    "Android header inverted logos" "logo-inverted.png".

(** ** Splash screens *)

Definition splash_icon_sizes : list (string * Z) :=
  [ ("mdpi", 96); ("hdpi", 144); ("xhdpi", 192); ("xxhdpi", 288);
    ("xxxhdpi", 384) ].

Definition generate_android_splash_icons : M Z :=
  let splash_icon_master :=
    get_project_path "master-images/splash-icon-square-master.png" in
  found <- path_exists splash_icon_master ;;
  if negb found then
    print (MsgText "Warning: splash-icon-square-master.png not found - skipping Android 12+ splash icons") ;;;
    ret 0
  else
    print (MsgText "Generating Android 12+ splash icons...") ;;;
    icon_success_count <-
      for_each splash_icon_sizes (fun '(density, size) icon_success_count =>
        let icon_dir := "android/app/src/main/res/drawable-" +:+ density in
        ensure_directory icon_dir ;;;
        let icon_path := get_project_path (icon_dir +:+ "/splash_icon_center.png") in
        ok <- resize_image splash_icon_master icon_path (Some (size, size))
                true false ;;
        ret (count_if ok icon_success_count)) 0 ;;
    print (MsgCount "Android 12+ splash icons" icon_success_count
             (len splash_icon_sizes)) ;;;
    ret icon_success_count.

Definition ios_splash_sizes : list (Z * Z) :=
  [ (2732, 2732); (1920, 1920); (1024, 1024) ].

Definition android_splash_densities : list (string * Z * Z) :=
  [ ("ldpi", 240, 320); ("mdpi", 320, 480); ("hdpi", 480, 720);
    ("xhdpi", 640, 960); ("xxhdpi", 960, 1440); ("xxxhdpi", 1280, 1920) ].

Definition capacitor_splash_defaults : list string :=
  [ "splash-2732x2732-1.png"; "splash-2732x2732-2.png"; "splash-2732x2732.png" ].

(** [for p in l: if not os.path.exists(p): return p] *)
Fixpoint first_missing (l : list path) : M (option path) :=
  match l with
  | [] => ret None
  | p :: l' => found <- path_exists p ;;
               if found then first_missing l' else ret (Some p)
  end.

(** Returns [None] where the Python function falls off a bare [return]. *)
Definition generate_splash_screens : M (option Z) :=
  print (MsgText "Generating splash screens...") ;;;
  let ios_master := get_project_path "master-images/splash-square-master.png" in
  let android_portrait_master :=
    get_project_path "master-images/splash-android-portrait-master.png" in
  let android_landscape_master :=
    get_project_path "master-images/splash-android-landscape-master.png" in
  (* Verify master images exist *)
  missing <- first_missing
               [ios_master; android_portrait_master; android_landscape_master] ;;
  match missing with
  | Some master_path => print (MsgMissingMaster master_path) ;;; ret None
  | None =>
    ensure_directory "public/splash" ;;;
    ensure_directory "ios/App/App/Assets.xcassets/Splash.imageset" ;;;
    ensure_directory "android/app/src/main/res/drawable" ;;;
    (* Generate web splash screens using iOS master *)
    success_count <-
      for_each ios_splash_sizes (fun size success_count =>
        let web_path :=
          get_project_path ("public/splash/splash-" +:+ fmt_size size +:+ ".png") in
        ok <- resize_image ios_master web_path (Some size) true false ;;
        ret (count_if ok success_count)) 0 ;;
    (* Generate iOS splash screens using square master *)
    success_count <-
      for_each ios_splash_sizes (fun size success_count =>
        let ios_path :=
          get_project_path ("ios/App/App/Assets.xcassets/Splash.imageset/splash-"
                            +:+ fmt_size size +:+ ".png") in
        ok <- resize_image ios_master ios_path (Some size) true false ;;
        ret (count_if ok success_count)) success_count ;;
    (* Generate Capacitor default splash screen filenames *)
    success_count <-
      for_each capacitor_splash_defaults (fun filename success_count =>
        let ios_default_path :=
          get_project_path ("ios/App/App/Assets.xcassets/Splash.imageset/"
                            +:+ filename) in
        ok <- resize_image ios_master ios_default_path (Some (2732, 2732))
                true false ;;
        ret (count_if ok success_count)) success_count ;;
    (* Generate Android splash screens using platform-specific masters *)
    success_count <-
      for_each android_splash_densities
        (fun '(density, width, height) success_count =>
          let port_dir := "android/app/src/main/res/drawable-port-" +:+ density in
          ensure_directory port_dir ;;;
          let port_path := get_project_path (port_dir +:+ "/splash.png") in
          ok <- resize_image android_portrait_master port_path
                  (Some (width, height)) true false ;;
          let success_count := count_if ok success_count in
          let land_dir := "android/app/src/main/res/drawable-land-" +:+ density in
          ensure_directory land_dir ;;;
          let land_path := get_project_path (land_dir +:+ "/splash.png") in
          ok <- resize_image android_landscape_master land_path
                  (Some (height, width)) true false ;;
          ret (count_if ok success_count)) success_count ;;
    (* Base Android splash (main drawable folder) using portrait master *)
    let android_path :=
      get_project_path "android/app/src/main/res/drawable/splash.png" in
    ok <- resize_image android_portrait_master android_path
            (Some (1280, 1920)) true false ;;
    let success_count := count_if ok success_count in
    let total_expected :=
      len ios_splash_sizes * 2 + len capacitor_splash_defaults
      + len android_splash_densities * 2 + 1 in
    print (MsgCount "Splash screens" success_count total_expected) ;;;
    (* Generate Android 12+ splash icon *)
    splash_icons <- generate_android_splash_icons ;;
    ret (Some (success_count + splash_icons))
  end.

(** ** Configuration files *)

Definition icon_entry (size idiom filename scale : string) : json :=
  JObj [("size", JStr size); ("idiom", JStr idiom);
        ("filename", JStr filename); ("scale", JStr scale)].

Definition splash_entry (idiom filename scale : string) : json :=
  JObj [("idiom", JStr idiom); ("filename", JStr filename);
        ("scale", JStr scale)].

Definition xcode_info : json :=
  JObj [("version", JNum 1); ("author", JStr "xcode")].

Definition appicon_contents : json :=
  JObj [("images", JArr [
    icon_entry "20x20" "iphone" "AppIcon-20x20@2x.png" "2x";
    icon_entry "20x20" "iphone" "AppIcon-20x20@3x.png" "3x";
    icon_entry "29x29" "iphone" "AppIcon-29x29@2x.png" "2x";
    icon_entry "29x29" "iphone" "AppIcon-29x29@3x.png" "3x";
    icon_entry "40x40" "iphone" "AppIcon-40x40@2x.png" "2x";
    icon_entry "40x40" "iphone" "AppIcon-40x40@3x.png" "3x";
    icon_entry "60x60" "iphone" "AppIcon-60x60@2x.png" "2x";
    icon_entry "60x60" "iphone" "AppIcon-60x60@3x.png" "3x";
    icon_entry "20x20" "ipad" "AppIcon-20x20@1x.png" "1x";
    icon_entry "20x20" "ipad" "AppIcon-20x20@2x.png" "2x";
    icon_entry "29x29" "ipad" "AppIcon-29x29@1x.png" "1x";
    icon_entry "29x29" "ipad" "AppIcon-29x29@2x.png" "2x";
    icon_entry "40x40" "ipad" "AppIcon-40x40@1x.png" "1x";
    icon_entry "40x40" "ipad" "AppIcon-40x40@2x.png" "2x";
    icon_entry "76x76" "ipad" "AppIcon-76x76@1x.png" "1x";
    icon_entry "76x76" "ipad" "AppIcon-76x76@2x.png" "2x";
    icon_entry "83.5x83.5" "ipad" "AppIcon-83.5x83.5@2x.png" "2x";
    icon_entry "1024x1024" "ios-marketing" "icon-1024x1024.png" "1x" ]);
    ("info", xcode_info)].

Definition splash_contents : json :=
  JObj [("images", JArr [
    splash_entry "universal" "splash-2732x2732.png" "1x";
    splash_entry "universal" "splash-1920x1920.png" "2x";
    splash_entry "universal" "splash-1024x1024.png" "3x" ]);
    ("info", xcode_info)].

(** [with open(p, 'w') as f: json.dump(doc, f, indent=2)] *)
Definition json_dump (doc : json) (p : path) : M unit :=
  write_file p (JsonFile doc).

(** [with open(p, 'r') as f: json.load(f)] *)
Definition json_load (p : path) : M json :=
  fun w => match files w !! p with
           | None => (Raise (FileNotFoundError p), w)
           | Some f => match parse_json f with
                       | Some doc => (Ret doc, w)
                       | None => (Raise (JSONDecodeError p), w)
                       end
           end.

Definition create_ios_contents_json : M unit :=
  print (MsgText "Creating iOS Contents.json files...") ;;;
  let appicon_dir := "ios/App/App/Assets.xcassets/AppIcon.appiconset" in
  ensure_directory appicon_dir ;;;
  json_dump appicon_contents (get_project_path (appicon_dir +:+ "/Contents.json")) ;;;
  let splash_dir := "ios/App/App/Assets.xcassets/Splash.imageset" in
  ensure_directory splash_dir ;;;
  json_dump splash_contents (get_project_path (splash_dir +:+ "/Contents.json")).

(** [d[key] = value] on a Python dict: an existing key keeps its position. *)
Fixpoint dict_set (key : string) (value : json) (d : list (string * json))
    : list (string * json) :=
  match d with
  | [] => [(key, value)]
  | (k, v) :: d' => if String.eqb k key then (k, value) :: d'
                    else (k, v) :: dict_set key value d'
  end.


(** [doc[key] = value]: only a dict accepts a string subscript. *)
Definition setitem (doc : json) (key : string) (value : json) : M json :=
  match doc with
  | JObj d => ret (JObj (dict_set key value d))
  | _ => raise TypeError
  end.

Definition manifest_icon (src sizes : string) : json :=
  JObj [("src", JStr src); ("sizes", JStr sizes); ("type", JStr "image/png")].

Definition manifest_icons : json :=
  JArr [ manifest_icon "/icons/icon-192x192.png" "192x192";
         manifest_icon "/icons/icon-512x512.png" "512x512" ].

Definition manifest_path : path := get_project_path "public/manifest.json".

Definition update_manifest_json : M unit :=
  print (MsgText "Updating web manifest...") ;;;
  found <- path_exists manifest_path ;;
  if negb found then
    print (MsgText "Warning: manifest.json not found - skipping update")
  else
    try_except
      (manifest <- json_load manifest_path ;;
       (* Update icons array *)
       manifest <- setitem manifest "icons" manifest_icons ;;
       json_dump manifest manifest_path ;;;
       print (MsgText "Web manifest updated"))
      (fun e => print (MsgText "Error updating manifest")).

(** ** Main execution *)

(** The dict [master_images], in insertion order. *)
Definition master_images : list (string * path) :=
  [ ("icon", get_project_path "master-images/icon-master.png");
    ("logo", get_project_path "master-images/logo-master.png");
    ("logo_inverted", get_project_path "master-images/logo-inverted-master.png");
    ("splash_square", get_project_path "master-images/splash-square-master.png");
    ("splash_portrait",
      get_project_path "master-images/splash-android-portrait-master.png");
    ("splash_landscape",
      get_project_path "master-images/splash-android-landscape-master.png");
    ("splash_icon",
      get_project_path "master-images/splash-icon-square-master.png") ].

(** [master_images[name]]: every name used below is a key of the dict. *)
Definition master (name : string) : path :=
  match List.find (fun '(k, _) => String.eqb k name) master_images with
  | Some (_, p) => p
  | None => Cwd EmptyString
  end.

(** [[path for path in master_images.values() if not os.path.exists(path)]] *)
Fixpoint missing_paths (l : list path) : M (list path) :=
  match l with
  | [] => ret []
  | p :: l' => found <- path_exists p ;;
               rest <- missing_paths l' ;;
               ret (if found then rest else p :: rest)
  end.

Definition banner (title : string) : M unit :=
  print (MsgText "==================================================") ;;;
  print (MsgText title) ;;;
  print (MsgText "==================================================").

(** [x or 0] on the result of [generate_splash_screens]. *)
Definition or_0 (x : option Z) : Z :=
  match x with Some n => n | None => 0 end.

Definition main : M unit :=
  print (MsgText "Gipity Scaffold - Image Asset Generator") ;;;
  let total_images_generated := 0 in
  (* Verify all required master images exist *)
  missing_images <- missing_paths (map snd master_images) ;;
  match missing_images with
  | _ :: _ =>
    print (MsgText "Missing required master images:") ;;;
    for_each missing_images (fun img _ => print (MsgMissingMaster img)) tt ;;;
    print (MsgText "Required master images in master-images/ folder: ...") ;;;
    raise (SystemExit 1)
  | [] =>
    print (MsgText "Master images verified") ;;;
    banner "WEB PWA ASSETS" ;;;
    web_icons <- generate_web_icons (master "icon") ;;
    web_logos <- generate_web_logos (master "logo") ;;
    web_logos_inverted <- generate_web_logos_inverted (master "logo_inverted") ;;
    let total_images_generated :=
      total_images_generated + (web_icons + web_logos + web_logos_inverted) in
    banner "iOS ASSETS" ;;;
    ios_icons <- generate_ios_icons (master "icon") ;;
    ios_logos <- generate_ios_logos (master "logo") ;;
    ios_logos_inverted <- generate_ios_logos_inverted (master "logo_inverted") ;;
    let total_images_generated :=
      total_images_generated + (ios_icons + ios_logos + ios_logos_inverted) in
    banner "ANDROID ASSETS" ;;;
    android_icons <- generate_android_icons (master "icon") ;;
    android_logos <- generate_android_logos (master "logo") ;;
    android_logos_inverted <-
      generate_android_logos_inverted (master "logo_inverted") ;;
    let total_images_generated :=
      total_images_generated
      + (android_icons + android_logos + android_logos_inverted) in
    banner "SPLASH SCREENS" ;;;
    splash_total <- generate_splash_screens ;;
    let total_images_generated := total_images_generated + or_0 splash_total in
    banner "TOTAL ASSETS DEPLOYED" ;;;
    print (MsgCount "Total image assets placed in destination folders"
             total_images_generated total_images_generated) ;;;
    banner "CONFIGURATION FILES" ;;;
    create_ios_contents_json ;;;
    update_manifest_json ;;;
    print (MsgText "iOS Contents.json files created") ;;;
    banner "GENERATION COMPLETE" ;;;
    print (MsgText "All image assets generated successfully") ;;;
    print (MsgText "Platform configurations updated") ;;;
    banner "NEXT STEPS"
  end.

(** The exit status of the process for an outcome of [main]: an uncaught
    exception ends the interpreter with status 1. *)
Definition exit_status (r : outcome unit) : Z :=
  match r with
  | Ret _ => 0
  | Raise (SystemExit code) => code
  | Raise _ => 1
  end.

(** ** Geometry of an output image *)

(** The region of the canvas covered by the pasted image, as
    [(x, y, width, height)]; an image that is not a paste is all content. *)
Definition content_box (im : image) : Z * Z * Z * Z :=
  match im with
  | Paste _ fg x y => (x, y, width fg, height fg)
  | _ => (0, 0, width im, height im)
  end.



(** The transparent border left on each of the four sides is at least [b]. *)
Definition border_at_least (tw th b : Z) (box : Z * Z * Z * Z) : Prop :=
  let '(x, y, cw, ch) := box in
  b <= x /\ b <= y /\ b <= tw - (x + cw) /\ b <= th - (y + ch).

(** The image stored at [p], if the file there decodes. *)
Definition image_at (w : world) (p : path) : option image :=
  match files w !! p with
  | Some f => decode f
  | None => None
  end.

(** ** What [resize_image] computes, as a function of the decoded source *)

(** The image handed to [save] on the re-encoding path of [resize_image];
    [None] when a Pillow call raises on the way. *)
Definition render (source_img : image) (size : Z * Z)
    (maintain_aspect adaptive_icon_safe_margin : bool) : option image :=
  let img := if decide (mode source_img = RGBA) then source_img
             else ConvertRGBA source_img in
  if maintain_aspect then
    let box := if adaptive_icon_safe_margin
               then (Float.int_mul_0_7 (fst size), Float.int_mul_0_7 (snd size))
               else size in
    match thumbnail img box with
    | None => None
    | Some img =>
        if (0 <=? fst size) && (0 <=? snd size) then
          Some (Paste (NewTransparent (fst size) (snd size)) img
                  ((fst size - width img) / 2) ((snd size - height img) / 2))
        else None
    end
  else if (0 <? fst size) && (0 <? snd size) then
    Some (if decide (size = img_size img) then img
          else Lanczos img (fst size) (snd size))
  else None.

(** The file that a successful [resize_image] leaves at the destination. *)
Definition output_file (source : file) (source_img : image)
    (size : option (Z * Z)) (maintain_aspect adaptive_icon_safe_margin : bool)
    : option file :=
  let size := match size with None => img_size source_img | Some s => s end in
  if decide (img_size source_img = size) then Some source
  else match render source_img size maintain_aspect adaptive_icon_safe_margin with
       | Some im => Some (PngSaved im false)
       | None => None
       end.

Definition add_message (m : message) (w : world) : world :=
  World (files w) (writable w) (printed w ++ [m]).

(** The world after a failed call. *)
Definition failed (output_path : path) (w : world) : outcome bool * world :=
  (Ret false, add_message (MsgErrorCreating output_path) w).

(** [source_img.convert('RGBA') if source_img.mode != 'RGBA' else source_img.copy()] *)
Definition as_rgba (im : image) : image :=
  if decide (mode im = RGBA) then im else ConvertRGBA im.

(** ** Sample inputs *)

(** A master image as found on disk. *)
Definition master_file (fmt : image_format) (m : pil_mode) (w h : Z) : file :=
  Blob [] (Some (fmt, Decoded m w h [])).

(** A world holding one master, where every path can be written. *)
Definition one_master (p : path) (f : file) : world :=
  World {[ p := f ]} (fun _ => true) [].

Definition icon_master : path := get_project_path "master-images/icon-master.png".
Definition sample_out : path := Cwd "out/icon.png".

(** ** Output formats *)

Definition has_alpha (m : pil_mode) : bool :=
  match m with RGBA | LA => true | _ => false end.

(** The file is a PNG whose pixels carry an alpha channel. *)
Definition png_with_alpha (f : file) : bool :=
  match f with
  | PngSaved im _ => has_alpha (mode im)
  | Blob _ (Some (PNG, im)) => has_alpha (mode im)
  | _ => false
  end.

(** The target size of a call: [size], or the source's own size for [None]. *)
Definition target_size (size : option (Z * Z)) (source_img : image) : Z * Z :=
  match size with None => img_size source_img | Some s => s end.

(** The seven masters at their documented sizes. *)
Definition sample_masters : gmap path file :=
  list_to_map
    [ (master "icon", master_file PNG RGBA 1024 1024);
      (master "logo", master_file PNG RGBA 480 128);
      (master "logo_inverted", master_file PNG RGBA 480 128);
      (master "splash_square", master_file PNG RGB 2732 2732);
      (master "splash_portrait", master_file PNG RGB 1280 1920);
      (master "splash_landscape", master_file PNG RGB 1920 1280);
      (master "splash_icon", master_file PNG RGBA 1024 1024) ].

Definition ic_launcher_xml_path : path :=
  get_project_path "android/app/src/main/res/mipmap-anydpi-v26/ic_launcher.xml".

(** All masters present, every path writable. *)
Definition healthy_world : world := World sample_masters (fun _ => true) [].

(** All masters present; only [ic_launcher.xml] cannot be written. *)
Definition xml_readonly_world : world :=
  World sample_masters
    (fun p => negb (bool_decide (p = ic_launcher_xml_path))) [].

(** The number of files on disk. *)
Definition file_count (w : world) : nat := size (files w).

(** [m] is the error line for destination [p]. *)
Definition is_error_for (p : path) (m : message) : bool :=
  match m with
  | MsgErrorCreating q => bool_decide (p = q)
  | _ => false
  end.

(** [os.path.exists], as a pure test on a world. *)
Definition present (w : world) (p : path) : bool :=
  bool_decide (is_Some (files w !! p)).



(** ** Destinations of the icon catalogs *)

Definition web_icon_outputs : list path :=
  map (fun size =>
         get_project_path ("public/icons/icon-" +:+ fmt_size size +:+ ".png"))
      web_sizes.







(** ** Running the script twice *)

(** [t] is a state of the second run at the point where the first run was in
    state [s], the first run having ended in [fin]: every file of [t] is
    either as the first run had it at that point or already as the first
    run left it. *)
Definition agree (s t fin : world) : Prop :=
  forall p, files t !! p = files s !! p \/ files t !! p = files fin !! p.

(** The second run of [c] does what the first one did, provided no path
    outside [R] changes any more between the end of [c] and the end of the
    first run. *)
Definition lockstep {A} (R : path -> bool) (c : M A) : Prop :=
  forall s t fin,
    writable t = writable s -> agree s t fin ->
    (forall p, R p = false -> files fin !! p = files (snd (c s)) !! p) ->
    fst (c t) = fst (c s) /\ agree (snd (c s)) (snd (c t)) fin.

(** [c] keeps the permissions and changes files at paths of [W] only. *)
Definition writes_within {A} (W : path -> bool) (c : M A) : Prop :=
  forall s, writable (snd (c s)) = writable s
            /\ forall p, W p = false -> files (snd (c s)) !! p = files s !! p.

(** [c] replays under [R] and writes within [W]. *)
Definition replays {A} (R W : path -> bool) (c : M A) : Prop :=
  lockstep R c /\ writes_within W c.

Definition path_eqb (p q : path) : bool := bool_decide (p = q).

Definition is_master (p : path) : bool :=
  existsb (path_eqb p) (map snd master_images).

Definition icon_192_path : path :=
  get_project_path "public/icons/icon-192x192.png".

(** Every path but the masters: where the run may write. *)
Definition outputs (p : path) : bool := negb (is_master p).

(** The paths written after [generate_web_icons]: the 192 pixel web icon is
    read back by [generate_web_logos] and not written again. *)
Definition later_outputs (p : path) : bool :=
  outputs p && negb (path_eqb p icon_192_path).

Definition nowhere (p : path) : bool := false.

(** The file that [resize_image] writes, if any, as a function of what it
    finds at the source path and of whether the destination can be written. *)
Definition resize_effect (source : option file) (can_write same_path : bool)
    (size : option (Z * Z)) (ma sm : bool) : option file :=
  match source with
  | None => None
  | Some f =>
      match decode f with
      | None => None
      | Some simg =>
          match output_file f simg size ma sm with
          | None => None
          | Some out =>
              if decide (img_size simg = target_size size simg)
              then if same_path then None
                   else if can_write then Some out else None
              else if can_write then Some out else None
          end
      end
  end.

(** ** Further definitions used by the properties *)

(** The manifest file that [update_manifest_json] writes, if any. *)
Definition manifest_effect (found : option file) (can_write : bool)
    : option file :=
  match found with
  | Some (JsonFile (JObj d)) =>
      if can_write
      then Some (JsonFile (JObj (dict_set "icons" manifest_icons d)))
      else None
  | _ => None
  end.

(** The content at the manifest path once [update_manifest_json] is done. *)
Definition manifest_after (found : option file) (can_write : bool)
    : option file :=
  match manifest_effect found can_write with
  | Some f => Some f
  | None => found
  end.


(** The box handed to [thumbnail]. *)
Definition fit_box (size : Z * Z) (adaptive_icon_safe_margin : bool) : Z * Z :=
  if adaptive_icon_safe_margin
  then (Float.int_mul_0_7 (fst size), Float.int_mul_0_7 (snd size))
  else size.


Definition splash_icon_master : path :=
  get_project_path "master-images/splash-icon-square-master.png".




(** [c] returns normally from every world whose write permissions are [perm],
    and keeps them. *)
Definition returns {A} (perm : path -> bool) (c : M A) : Prop :=
  forall w, writable w = perm ->
    exists a w', c w = (Ret a, w') /\ writable w' = perm.

(** [c] keeps the write permissions, and if it raises, it raises something
    that [except Exception] catches. *)
Definition contained {A} (c : M A) : Prop :=
  forall w, writable (snd (c w)) = writable w
            /\ forall e, fst (c w) = Raise e -> is_Exception e = true.

Definition appicon_contents_path : path :=
  get_project_path "ios/App/App/Assets.xcassets/AppIcon.appiconset/Contents.json".

Definition splash_contents_path : path :=
  get_project_path "ios/App/App/Assets.xcassets/Splash.imageset/Contents.json".




(** * Properties *)

Section ThumbnailBounds.
Variables w h x y : Z.
Hypothesis Hw : 0 < w.
Hypothesis Hh : 0 < h.
Hypothesis Hx : 0 < x.
Hypothesis Hy : 0 < y.

Let aspect : Q := (inject_Z w / inject_Z h)%Q.

Lemma inject_Z_pos (z : Z) : 0 < z -> (0 < inject_Z z)%Q.
Proof. intros Hz. unfold Qlt. simpl. lia. Qed.

Lemma inject_Z_nonzero (z : Z) : 0 < z -> ~ (inject_Z z == 0)%Q.
Proof. intros Hz E. unfold Qeq in E. simpl in E. lia. Qed.

Lemma aspect_pos : (0 < aspect)%Q.
Proof.
  unfold aspect. apply Qlt_shift_div_l.
  - now apply inject_Z_pos.
  - rewrite Qmult_0_l. now apply inject_Z_pos.
Qed.

Lemma round_aspect_ge_1 (number : Q) (key : Z -> Q) :
  1 <= Thumbnail.round_aspect number key.
Proof. unfold Thumbnail.round_aspect. lia. Qed.

Lemma round_aspect_le (number : Q) (key : Z -> Q) (bound : Z) :
  1 <= bound -> (number <= inject_Z bound)%Q ->
  Thumbnail.round_aspect number key <= bound.
Proof.
  intros Hb Hn. unfold Thumbnail.round_aspect.
  assert (Hc : Qceiling number <= bound).
  { rewrite <- (Qceiling_Z bound). now apply Qceiling_resp_le. }
  assert (Hf : Qfloor number <= bound).
  { rewrite <- (Qfloor_Z bound). now apply Qfloor_resp_le. }
  destruct (Qle_bool _ _); lia.
Qed.

(** Wide box: the width is recomputed and stays within the box. *)
Lemma scaled_width_le :
  (aspect <= inject_Z x / inject_Z y)%Q ->
  (inject_Z y * aspect <= inject_Z x)%Q.
Proof.
  intros H.
  apply (Qmult_le_compat_r _ _ (inject_Z y)) in H.
  2:{ apply Qlt_le_weak. now apply inject_Z_pos. }
  rewrite (Qmult_comm (inject_Z x / inject_Z y)) in H.
  rewrite Qmult_div_r in H by now apply inject_Z_nonzero.
  now rewrite Qmult_comm.
Qed.

(** Tall box: the height is recomputed and stays within the box. *)
Lemma scaled_height_le :
  ~ (aspect <= inject_Z x / inject_Z y)%Q ->
  (inject_Z x / aspect <= inject_Z y)%Q.
Proof.
  intros H. apply Qnot_le_lt in H.
  apply Qle_shift_div_r; [apply aspect_pos|].
  apply Qlt_le_weak.
  apply (Qmult_lt_compat_r _ _ (inject_Z y)) in H.
  2:{ now apply inject_Z_pos. }
  rewrite (Qmult_comm (inject_Z x / inject_Z y)) in H.
  rewrite Qmult_div_r in H by now apply inject_Z_nonzero.
  now rewrite Qmult_comm.
Qed.

(** When the image does not fit, [thumbnail] shrinks it to a size inside
    the box that touches the box along one axis. *)
Lemma preserve_aspect_ratio_shrinks (fw fh : Z) :
  Thumbnail.preserve_aspect_ratio w h x y = Some (fw, fh) ->
  (x < w \/ y < h) /\ 1 <= fw <= x /\ 1 <= fh <= y /\ (fw = x \/ fh = y).
Proof.
  unfold Thumbnail.preserve_aspect_ratio.
  destruct (andb _ _) eqn:Hfit; [discriminate|].
  apply andb_false_iff in Hfit.
  assert (Hbig : x < w \/ y < h) by (destruct Hfit as [F|F]; lia).
  fold aspect.
  destruct (Qle_bool aspect _) eqn:Hcmp; intros [= <- <-].
  - apply Qle_bool_iff in Hcmp. apply scaled_width_le in Hcmp.
    repeat split; try lia; auto using round_aspect_ge_1.
    apply round_aspect_le; [lia | exact Hcmp].
  - assert (Hn : ~ (aspect <= inject_Z x / inject_Z y)%Q).
    { intros C. apply Qle_bool_iff in C. congruence. }
    apply scaled_height_le in Hn.
    repeat split; try lia; auto using round_aspect_ge_1.
    apply round_aspect_le; [lia | exact Hn].
Qed.

Lemma preserve_aspect_ratio_fits :
  Thumbnail.preserve_aspect_ratio w h x y = None -> w <= x /\ h <= y.
Proof.
  unfold Thumbnail.preserve_aspect_ratio.
  destruct (andb _ _) eqn:Hfit.
  - intros _. apply andb_true_iff in Hfit. lia.
  - destruct (Qle_bool _ _); discriminate.
Qed.

(** The size after [thumbnail((x, y))]. *)
Lemma final_size_cases (fw fh : Z) :
  Thumbnail.final_size w h x y = (fw, fh) ->
  (w <= x /\ h <= y /\ fw = w /\ fh = h)
  \/ ((x < w \/ y < h) /\ 1 <= fw <= x /\ 1 <= fh <= y /\ (fw = x \/ fh = y)).
Proof.
  unfold Thumbnail.final_size.
  destruct (Thumbnail.preserve_aspect_ratio w h x y) as [[a b]|] eqn:E.
  - intros [= <- <-]. right. now apply preserve_aspect_ratio_shrinks.
  - intros [= <- <-]. left. apply preserve_aspect_ratio_fits in E. lia.
Qed.

Lemma final_size_in_box (fw fh : Z) :
  Thumbnail.final_size w h x y = (fw, fh) ->
  1 <= fw <= x /\ 1 <= fh <= y.
Proof. intros E. apply final_size_cases in E. lia. Qed.

End ThumbnailBounds.

(** ** [resize_image] as a function of the source file *)

Ltac unfold_monad :=
  cbv beta iota zeta delta
    [bind ret raise try_except print ensure_directory write_file save_png
     copy2 image_open image_new image_resize image_thumbnail path_exists
     write_text json_dump json_load setitem] in *.

Lemma resize_image_missing src dst size ma sm (w : world) :
  files w !! src = None ->
  resize_image src dst size ma sm w = failed dst w.
Proof.
  intros E. unfold resize_image, resize_image_body, failed, add_message.
  unfold_monad. rewrite E. reflexivity.
Qed.

Lemma resize_image_corrupt src dst size ma sm (w : world) f :
  files w !! src = Some f -> decode f = None ->
  resize_image src dst size ma sm w = failed dst w.
Proof.
  intros E D. unfold resize_image, resize_image_body, failed, add_message.
  unfold_monad. rewrite E, D. reflexivity.
Qed.

(** With a readable source, the call writes [output_file] to the destination
    when there is one and the destination accepts it, and fails otherwise. *)
Lemma resize_image_readable src dst size ma sm (w : world) f simg :
  files w !! src = Some f -> decode f = Some simg ->
  resize_image src dst size ma sm w =
    let size' := match size with None => img_size simg | Some s => s end in
    match output_file f simg size ma sm with
    | None => failed dst w
    | Some out =>
        if decide (img_size simg = size') then
          if decide (src = dst) then failed dst w
          else if writable w dst then
            (Ret true, add_message (MsgDirectCopy dst size')
                         (set_files (<[dst := out]> (files w)) w))
          else failed dst w
        else if writable w dst then
          (Ret true, add_message (MsgCreated dst size')
                       (set_files (<[dst := out]> (files w)) w))
        else failed dst w
    end.
Proof.
  intros E D.
  unfold resize_image, resize_image_body, output_file, render, failed,
    add_message, set_files.
  unfold_monad. rewrite E, D. cbn zeta.
  destruct (decide (img_size simg = _)) as [Hs|Hs].
  - destruct (decide (src = dst)); rewrite ?E; [reflexivity|].
    destruct (writable w dst); reflexivity.
  - destruct ma; [destruct sm|]; cbn beta iota;
      repeat match goal with
             | |- context [thumbnail ?a ?b] => destruct (thumbnail a b)
             | |- context [andb ?a ?b] => destruct (andb a b)
             | |- context [writable w dst] => destruct (writable w dst)
             end; reflexivity.
Qed.

(** ** The aspect-preserving paths *)

Lemma thumbnail_size (im : image) (bx by' : Z) :
  0 < bx -> 0 < by' ->
  exists im', thumbnail im (bx, by') = Some im'
    /\ img_size im' = Thumbnail.final_size (width im) (height im) bx by'.
Proof.
  intros Hx Hy. unfold thumbnail.
  assert (Hpos : (0 <? bx) && (0 <? by') = true).
  { apply andb_true_iff. split; apply Z.ltb_lt; assumption. }
  rewrite Hpos.
  destruct (Thumbnail.final_size _ _ _ _) as [fw fh].
  destruct (decide _) as [E|E].
  - exists im. split; [reflexivity | now symmetry].
  - exists (Lanczos im fw fh). split; reflexivity.
Qed.

Lemma as_rgba_size (im : image) : img_size (as_rgba im) = img_size im.
Proof. unfold as_rgba. destruct (decide _); reflexivity. Qed.

Lemma as_rgba_mode (im : image) : mode (as_rgba im) = RGBA.
Proof. unfold as_rgba. destruct (decide _); [assumption | reflexivity]. Qed.

(** The image rendered on the padded path: a transparent canvas of the
    target size with the thumbnail of the source pasted at the centre. *)
Lemma render_padded (simg : image) (tw th : Z) (sm : bool) :
  let bx := if sm then Float.int_mul_0_7 tw else tw in
  let by' := if sm then Float.int_mul_0_7 th else th in
  0 < tw -> 0 < th -> 0 < bx -> 0 < by' ->
  exists img,
    render simg (tw, th) true sm
      = Some (Paste (NewTransparent tw th) img
                ((tw - width img) / 2) ((th - height img) / 2))
    /\ img_size img
       = Thumbnail.final_size (width simg) (height simg) bx by'.
Proof.
  intros bx by' Htw Hth Hbx Hby.
  destruct (thumbnail_size (as_rgba simg) bx by' Hbx Hby) as (img & Ht & Hs).
  exists img. split.
  - unfold render. fold (as_rgba simg). cbn [fst snd].
    replace (if sm then (Float.int_mul_0_7 tw, Float.int_mul_0_7 th)
             else (tw, th)) with (bx, by') by (subst bx by'; destruct sm; reflexivity).
    rewrite Ht.
    replace ((0 <=? tw) && (0 <=? th)) with true; [reflexivity|].
    symmetry. apply andb_true_iff. split; apply Z.leb_le; lia.
  - rewrite Hs. pose proof (as_rgba_size simg) as E.
    unfold img_size in E. injection E as -> ->. reflexivity.
Qed.



(** A content no larger than [b] leaves at least [(t - b) // 2] on each side. *)
Lemma centred_border (t b c : Z) :
  c <= b ->
  let x := (t - c) / 2 in
  (t - b) / 2 <= x /\ (t - b) / 2 <= t - (x + c).
Proof.
  intros Hc x. subst x.
  pose proof (Z.div_le_mono (t - b) (t - c) 2 ltac:(lia) ltac:(lia)) as Hm.
  pose proof (Z.div_mod (t - c) 2 ltac:(lia)) as Ex.
  pose proof (Z.mod_pos_bound (t - c) 2 ltac:(lia)) as Bx.
  lia.
Qed.

(** ** Aspect-pad containment *)

Lemma image_at_insert (w : world) (p : path) (f : file) :
  image_at (set_files (<[p := f]> (files w)) w) p = decode f.
Proof. unfold image_at, set_files. cbn. now rewrite lookup_insert_eq. Qed.

Lemma image_at_add_message (m : message) (w : world) (p : path) :
  image_at (add_message m w) p = image_at w p.
Proof. reflexivity. Qed.




(** ** The same-size fast path *)






(** ** The safe margin of adaptive icons *)

Lemma int_mul_0_7_192 : Float.int_mul_0_7 192 = 134.
Proof. vm_compute. reflexivity. Qed.

(** Away from the fast path the safe-margin bound holds: on a 192 x 192
    canvas the content fits in 134 x 134 and every border is at least 29. *)
Lemma safe_margin_bound_192 (w : world) (src dst : path)
    (bytes : list Z) (fmt : image_format) (m : pil_mode) (px : list Z)
    (sw sh : Z) :
  files w !! src = Some (Blob bytes (Some (fmt, Decoded m sw sh px))) ->
  0 < sw -> 0 < sh -> (sw, sh) <> (192, 192) ->
  writable w dst = true ->
  exists out w',
    resize_image src dst (Some (192, 192)) true true w = (Ret true, w')
    /\ image_at w' dst = Some out
    /\ img_size out = (192, 192)
    /\ (let '(_, _, cw, ch) := content_box out in cw <= 134 /\ ch <= 134)
    /\ border_at_least 192 192 29 (content_box out).
Proof.
  intros Hsrc Hsw Hsh Hne Hwr.
  set (simg := Decoded m sw sh px).
  rewrite (resize_image_readable _ _ _ _ _ _ _ simg Hsrc eq_refl).
  unfold output_file. cbn zeta.
  destruct (decide (img_size simg = (192, 192))) as [Heq|_]; [contradiction|].
  destruct (render_padded simg 192 192 true) as (img & Hr & Hs);
    try (rewrite int_mul_0_7_192); try lia.
  rewrite int_mul_0_7_192 in Hs.
  rewrite Hr, Hwr.
  eexists _, _. split; [reflexivity|].
  rewrite image_at_add_message, image_at_insert. cbn [decode].
  split; [reflexivity|]. split; [reflexivity|].
  cbn [width height simg] in Hs. unfold img_size in Hs. symmetry in Hs.
  apply (final_size_in_box sw sh 134 134 Hsw Hsh) in Hs; try lia.
  unfold content_box, border_at_least.
  pose proof (centred_border 192 134 (width img) ltac:(lia)) as Bx.
  pose proof (centred_border 192 134 (height img) ltac:(lia)) as By.
  cbn zeta in Bx, By.
  change ((192 - 134) / 2) with 29 in Bx, By.
  lia.
Qed.

(** C2 fails at a source whose native size is the target: the safe-margin
    request for a 192 x 192 canvas from a 192 x 192 master returns the master
    itself, whose content covers the canvas, so it does not fit in 134 x 134
    and no border is left. *)
Theorem safe_margin_skipped_at_native_size :
  exists out w',
    resize_image icon_master sample_out (Some (192, 192)) true true
      (one_master icon_master (master_file PNG RGBA 192 192)) = (Ret true, w')
    /\ files w' !! sample_out = Some (master_file PNG RGBA 192 192)
    /\ image_at w' sample_out = Some out
    /\ content_box out = (0, 0, 192, 192)
    /\ ~ border_at_least 192 192 29 (content_box out).
Proof.
  eexists _, _. split; [vm_compute; reflexivity|].
  split; [vm_compute; reflexivity|].
  split; [vm_compute; reflexivity|].
  split; [reflexivity|].
  cbn. lia.
Qed.

(** ** Output format *)

Lemma render_mode (simg : image) (size : Z * Z) (ma sm : bool) (im : image) :
  render simg size ma sm = Some im -> mode im = RGBA.
Proof.
  unfold render. fold (as_rgba simg).
  destruct ma.
  - destruct (thumbnail _ _); [|discriminate].
    destruct (andb _ _); [|discriminate].
    intros [= <-]. reflexivity.
  - destruct (andb _ _); [|discriminate].
    intros [= <-]. destruct (decide _); cbn; apply as_rgba_mode.
Qed.

(** A successful call had a readable source. *)
Lemma resize_image_true_readable src dst size ma sm (w w' : world) :
  resize_image src dst size ma sm w = (Ret true, w') ->
  exists f simg, files w !! src = Some f /\ decode f = Some simg.
Proof.
  intros H.
  destruct (files w !! src) as [f|] eqn:E.
  - destruct (decode f) as [simg|] eqn:D.
    + now exists f, simg.
    + rewrite (resize_image_corrupt _ _ _ _ _ _ _ E D) in H. discriminate.
  - rewrite (resize_image_missing _ _ _ _ _ _ E) in H. discriminate.
Qed.

(** C4 (as amended): whenever [resize_image] succeeds with the source's
    native size different from the target, the destination holds a PNG
    written by Pillow from an RGBA image, whatever the mode of the source;
    when the sizes agree the destination holds the source file itself. *)
Theorem reencoded_output_is_rgba_png src dst size ma sm (w w' : world) :
  resize_image src dst size ma sm w = (Ret true, w') ->
  exists f simg,
    files w !! src = Some f /\ decode f = Some simg
    /\ (img_size simg <> target_size size simg ->
        exists im, files w' !! dst = Some (PngSaved im false)
                   /\ mode im = RGBA
                   /\ png_with_alpha (PngSaved im false) = true)
    /\ (img_size simg = target_size size simg -> files w' !! dst = Some f).
Proof.
  intros H.
  destruct (resize_image_true_readable _ _ _ _ _ _ _ H) as (f & simg & E & D).
  exists f, simg. split; [assumption|]. split; [assumption|].
  rewrite (resize_image_readable _ _ _ _ _ _ _ _ E D) in H.
  unfold output_file, target_size in *. cbn zeta in H.
  destruct (decide (img_size simg = _)) as [Hs|Hs].
  - split; [intros N; contradiction|]. intros _.
    destruct (decide (src = dst)); [discriminate|].
    destruct (writable w dst); [|discriminate].
    injection H as <-. cbn. now rewrite lookup_insert_eq.
  - split; [|intros N; contradiction]. intros _.
    destruct (render _ _ _ _) as [im|] eqn:R; [|discriminate].
    destruct (writable w dst); [|discriminate].
    injection H as <-. exists im. cbn. rewrite lookup_insert_eq.
    pose proof (render_mode _ _ _ _ _ R) as Hm.
    rewrite Hm. auto.
Qed.

Lemma reencoded_output_is_rgba_png_witness :
  exists f simg,
    files (one_master icon_master (master_file JPEG RGB 1024 1024)) !! icon_master
      = Some f
    /\ decode f = Some simg
    /\ (img_size simg <> target_size (Some (192, 192)) simg ->
        exists im,
          files (snd (resize_image icon_master sample_out (Some (192, 192))
                        true false
                        (one_master icon_master (master_file JPEG RGB 1024 1024))))
            !! sample_out = Some (PngSaved im false)
          /\ mode im = RGBA
          /\ png_with_alpha (PngSaved im false) = true)
    /\ (img_size simg = target_size (Some (192, 192)) simg ->
        files (snd (resize_image icon_master sample_out (Some (192, 192))
                      true false
                      (one_master icon_master (master_file JPEG RGB 1024 1024))))
          !! sample_out = Some f).
Proof.
  apply (reencoded_output_is_rgba_png icon_master sample_out (Some (192, 192))
           true false
           (one_master icon_master (master_file JPEG RGB 1024 1024))).
  vm_compute. reflexivity.
Defined.

(** C4 as stated fails: a PNG master without alpha, requested at its native
    size, is copied verbatim, so the output has no alpha channel. *)
Lemma opaque_master_copied_counterexample :
  exists w' out,
    resize_image (get_project_path "master-images/splash-square-master.png")
      (get_project_path "public/splash/splash-2732x2732.png")
      (Some (2732, 2732)) true false
      (one_master (get_project_path "master-images/splash-square-master.png")
         (master_file PNG RGB 2732 2732)) = (Ret true, w')
    /\ files w' !! get_project_path "public/splash/splash-2732x2732.png"
       = Some out
    /\ png_with_alpha out = false.
Proof.
  eexists _, _. split; [vm_compute; reflexivity|].
  split; [vm_compute; reflexivity|]. reflexivity.
Qed.

(** ** Errors at the task boundary *)


(** C5 fails for the adaptive-icon XML files, which the Android icon catalog
    counts among its outputs: when [ic_launcher.xml] cannot be written the
    error is not caught, no line names the destination, the catalog raises
    instead of returning a count, and the whole run ends with the
    exception. *)
Theorem xml_write_error_escapes :
  exists w',
    generate_android_icons (master "icon") xml_readonly_world
      = (Raise (PermissionError ic_launcher_xml_path), w')
    /\ existsb (is_error_for ic_launcher_xml_path) (printed w') = false
    /\ fst (main xml_readonly_world)
       = Raise (PermissionError ic_launcher_xml_path).
Proof.
  eexists. split; [vm_compute; reflexivity|].
  split; vm_compute; reflexivity.
Qed.

(** ** The pre-flight gate *)




(** C6 fails in its converse: with every required master present, a write
    error on [ic_launcher.xml] still ends the run with status 1, after 81
    output files have been written next to the 7 masters. *)
Theorem abort_without_missing_master :
  fst (missing_paths (map snd master_images) xml_readonly_world) = Ret []
  /\ exit_status (fst (main xml_readonly_world)) = 1
  /\ file_count xml_readonly_world = 7%nat
  /\ file_count (snd (main xml_readonly_world)) = 88%nat.
Proof. repeat split; vm_compute; reflexivity. Qed.

(** ** The web manifest *)






(** ** Counting successes *)

Section Counting.
Variable src : path.
Variable w0 : world.







End Counting.

(** ** Counter accuracy of the icon catalogs *)

Ltac in_list := cbn; repeat (first [left; reflexivity | right]).

Lemma last_add_message (m : message) (w : world) :
  last (printed (add_message m w)) = Some m.
Proof. cbn. apply last_snoc. Qed.







(** ** Replaying a computation *)

Section Replay.
Context {A B : Type}.

Lemma replays_bind (Rc Wc Rk Wk W : path -> bool) (c : M A) (k : A -> M B) :
  replays Rc Wc c -> (forall a, replays Rk Wk (k a)) ->
  (forall p, Rc p = false -> Rk p = false /\ Wk p = false) ->
  (forall p, W p = false -> Wc p = false /\ Wk p = false) ->
  replays Rk W (bind c k).
Proof.
  intros [Lc Fc] Hk Hsub HW. split.
  - intros s t fin Hperm Hag Hfin. unfold bind in *.
    destruct (Fc s) as [Ps _]. destruct (Fc t) as [Pt _].
    destruct (c s) as [r1 s1] eqn:Es. destruct (c t) as [r1' t1] eqn:Et.
    cbn [fst snd] in *.
    assert (Hc : r1' = r1 /\ agree s1 t1 fin).
    { specialize (Lc s t fin Hperm Hag). rewrite Es, Et in Lc. cbn in Lc.
      apply Lc. intros p Hp. destruct (Hsub p Hp) as [HR HWk].
      destruct r1 as [a|e]; cbn in Hfin.
      - rewrite (Hfin p HR). destruct (Hk a) as [_ Fk].
        destruct (Fk s1) as [_ Fk1]. now apply Fk1.
      - now apply Hfin. }
    destruct Hc as [-> Hag1].
    destruct r1 as [a|e]; cbn; [|split; [reflexivity | assumption]].
    destruct (Hk a) as [Lk _].
    apply Lk; [congruence | assumption | assumption].
  - intros s. unfold bind. destruct (Fc s) as [Ps Fs].
    destruct (c s) as [[a|e] s1]; cbn [fst snd] in *.
    + destruct (Hk a) as [_ Fk]. destruct (Fk s1) as [Pk Fk1]. split.
      * congruence.
      * intros p Hp. destruct (HW p Hp) as [H1 H2].
        rewrite (Fk1 p H2). now apply Fs.
    + split; [assumption|]. intros p Hp. destruct (HW p Hp) as [H1 _].
      now apply Fs.
Qed.

(** Within one phase a single set serves for all three roles. *)
Lemma replays_bind1 (W : path -> bool) (c : M A) (k : A -> M B) :
  replays W W c -> (forall a, replays W W (k a)) -> replays W W (bind c k).
Proof.
  intros Hc Hk. apply (replays_bind W W W W W); auto.
Qed.

End Replay.

Lemma replays_weaken {A} (R R' W W' : path -> bool) (c : M A) :
  replays R W c ->
  (forall p, R p = false -> R' p = false) ->
  (forall p, W' p = false -> W p = false) ->
  replays R' W' c.
Proof.
  intros [L F] HR HW. split.
  - intros s t fin Hperm Hag Hfin. apply L; auto.
  - intros s. destruct (F s) as [P Fs]. split; auto.
Qed.

(** A computation that only looks at its arguments and prints. *)
Lemma replays_quiet {A} (R W : path -> bool) (c : M A) :
  (forall w, exists r ms, c w = (r, World (files w) (writable w) (printed w ++ ms))
                          /\ forall w', fst (c w') = r) ->
  replays R W c.
Proof.
  intros H. split.
  - intros s t fin Hperm Hag Hfin.
    destruct (H s) as (r & ms & Es & Hr). destruct (H t) as (r' & ms' & Et & Hr').
    split.
    + rewrite (Hr t). rewrite Es. reflexivity.
    + rewrite Es, Et. exact Hag.
  - intros s. destruct (H s) as (r & ms & -> & _). split; reflexivity.
Qed.

Lemma replays_ret {A} (R W : path -> bool) (a : A) : replays R W (ret a).
Proof.
  apply replays_quiet. intros w. exists (Ret a), [].
  split; [|reflexivity]. unfold ret. rewrite app_nil_r. now destruct w.
Qed.

Lemma replays_raise {A} (R W : path -> bool) (e : exn) :
  replays R W (@raise A e).
Proof.
  apply replays_quiet. intros w. exists (Raise e), [].
  split; [|reflexivity]. unfold raise. rewrite app_nil_r. now destruct w.
Qed.

Lemma replays_print (R W : path -> bool) (m : message) : replays R W (print m).
Proof.
  apply replays_quiet. intros w. exists (Ret tt), [m].
  split; reflexivity.
Qed.

Lemma replays_ensure_directory (R W : path -> bool) (d : string) :
  replays R W (ensure_directory d).
Proof. apply replays_ret. Qed.

Lemma resize_image_effect src dst size ma sm (w : world) :
  exists m,
    resize_image src dst size ma sm w
    = match resize_effect (files w !! src) (writable w dst)
              (bool_decide (src = dst)) size ma sm with
      | Some out => (Ret true, add_message m (set_files (<[dst := out]> (files w)) w))
      | None => (Ret false, add_message m w)
      end.
Proof.
  unfold resize_effect.
  destruct (files w !! src) as [f|] eqn:E.
  - destruct (decode f) as [simg|] eqn:D.
    + rewrite (resize_image_readable _ _ _ _ _ _ _ _ E D). cbn zeta.
      fold (target_size size simg).
      destruct (output_file f simg size ma sm) as [out|];
        [|eexists; reflexivity].
      destruct (decide (img_size simg = target_size size simg)).
      * destruct (decide (src = dst)) as [Heq|Hne].
        -- rewrite (bool_decide_eq_true_2 _ Heq). eexists; reflexivity.
        -- rewrite (bool_decide_eq_false_2 _ Hne).
           destruct (writable w dst); eexists; reflexivity.
      * destruct (writable w dst); eexists; reflexivity.
    + rewrite (resize_image_corrupt _ _ _ _ _ _ _ E D). eexists; reflexivity.
  - rewrite (resize_image_missing _ _ _ _ _ _ E). eexists; reflexivity.
Qed.

(** ** Replaying the primitives *)

Lemma agree_read (s t fin : world) (p : path) :
  agree s t fin -> files fin !! p = files s !! p ->
  files t !! p = files s !! p.
Proof. intros Hag Hfin. destruct (Hag p) as [H|H]; congruence. Qed.

Lemma agree_insert (s t fin : world) (p : path) (f : file) :
  agree s t fin ->
  agree (set_files (<[p := f]> (files s)) s)
        (set_files (<[p := f]> (files t)) t) fin.
Proof.
  intros Hag q. cbn. destruct (decide (p = q)) as [->|Hne].
  - left. now rewrite !lookup_insert_eq.
  - rewrite !lookup_insert_ne by assumption. apply Hag.
Qed.

Lemma agree_message (s t fin : world) (m m' : message) :
  agree s t fin -> agree (add_message m s) (add_message m' t) fin.
Proof. intros Hag q. apply Hag. Qed.

Lemma replays_path_exists (R W : path -> bool) (p : path) :
  R p = false -> replays R W (path_exists p).
Proof.
  intros HR. split.
  - intros s t fin Hperm Hag Hfin. unfold path_exists. cbn.
    rewrite (agree_read s t fin p Hag (Hfin p HR)). split; [reflexivity | assumption].
  - intros s. split; reflexivity.
Qed.

Lemma replays_write_file (R W : path -> bool) (p : path) (f : file) :
  W p = true -> replays R W (write_file p f).
Proof.
  intros HW. split.
  - intros s t fin Hperm Hag Hfin. unfold write_file. rewrite Hperm.
    destruct (writable s p); cbn; (split; [reflexivity|]).
    + now apply agree_insert.
    + assumption.
  - intros s. unfold write_file. destruct (writable s p); cbn.
    + split; [reflexivity|]. intros q Hq.
      apply lookup_insert_ne. intros ->. congruence.
    + split; reflexivity.
Qed.

Lemma replays_copy2 (R W : path -> bool) (src dst : path) :
  R src = false -> W dst = true -> replays R W (copy2 src dst).
Proof.
  intros HR HW. split.
  - intros s t fin Hperm Hag Hfin.
    assert (Hsame : files (snd (copy2 src dst s)) !! src = files s !! src).
    { unfold copy2, write_file.
      destruct (files s !! src) eqn:E; [|exact E].
      destruct (decide (src = dst)); [exact E|].
      destruct (writable s dst); [|exact E].
      cbn. rewrite lookup_insert_ne by congruence. exact E. }
    assert (Hsrc : files t !! src = files s !! src).
    { apply (agree_read s t fin); [assumption|].
      rewrite (Hfin src HR). exact Hsame. }
    unfold copy2, write_file. rewrite Hsrc, Hperm.
    destruct (files s !! src); [|split; [reflexivity | assumption]].
    destruct (decide (src = dst)); [split; [reflexivity | assumption]|].
    destruct (writable s dst); cbn; (split; [reflexivity|]).
    + now apply agree_insert.
    + assumption.
  - intros s. unfold copy2, write_file.
    destruct (files s !! src); [|split; reflexivity].
    destruct (decide (src = dst)); [split; reflexivity|].
    destruct (writable s dst); cbn; [|split; reflexivity].
    split; [reflexivity|]. intros q Hq.
    apply lookup_insert_ne. intros ->. congruence.
Qed.

Lemma replays_resize_image (R W : path -> bool) src dst size ma sm :
  R src = false -> W dst = true -> src <> dst ->
  replays R W (resize_image src dst size ma sm).
Proof.
  intros HR HW Hne. split.
  - intros s t fin Hperm Hag Hfin.
    destruct (resize_image_effect src dst size ma sm s) as (ms & Es).
    destruct (resize_image_effect src dst size ma sm t) as (mt & Et).
    assert (Hsame : files (snd (resize_image src dst size ma sm s)) !! src
                    = files s !! src).
    { rewrite Es. destruct (resize_effect _ _ _ _ _ _); cbn; [|reflexivity].
      apply lookup_insert_ne. congruence. }
    assert (Hsrc : files t !! src = files s !! src).
    { apply (agree_read s t fin); [assumption|].
      rewrite (Hfin src HR). exact Hsame. }
    rewrite Et, Es, Hsrc, Hperm.
    destruct (resize_effect _ _ _ _ _ _); cbn [fst snd];
      (split; [reflexivity|]).
    + apply agree_message. now apply agree_insert.
    + now apply agree_message.
  - intros s.
    destruct (resize_image_effect src dst size ma sm s) as (ms & ->).
    destruct (resize_effect _ _ _ _ _ _); cbn; [|split; reflexivity].
    split; [reflexivity|]. intros q Hq.
    apply lookup_insert_ne. intros ->. congruence.
Qed.

Lemma replays_try_except {A} (W : path -> bool) (c : M A) (h : exn -> M A) :
  replays W W c -> (forall e, replays W W (h e)) ->
  replays W W (try_except c h).
Proof.
  intros [Lc Fc] Hh. split.
  - intros s t fin Hperm Hag Hfin. unfold try_except in *.
    destruct (Fc s) as [Ps _]. destruct (Fc t) as [Pt _].
    destruct (c s) as [r1 s1] eqn:Es. destruct (c t) as [r1' t1] eqn:Et.
    cbn [fst snd] in *.
    assert (Hc : r1' = r1 /\ agree s1 t1 fin).
    { specialize (Lc s t fin Hperm Hag). rewrite Es, Et in Lc. cbn in Lc.
      apply Lc. intros p Hp.
      destruct r1 as [a|e]; cbn in Hfin; [now apply Hfin|].
      destruct (is_Exception e); [|now apply Hfin].
      rewrite (Hfin p Hp). destruct (Hh e) as [_ Fh].
      destruct (Fh s1) as [_ Fh1]. now apply Fh1. }
    destruct Hc as [-> Hag1].
    destruct r1 as [a|e]; cbn; [split; [reflexivity | assumption]|].
    destruct (is_Exception e); [|split; [reflexivity | assumption]].
    destruct (Hh e) as [Lh _].
    apply Lh; [congruence | assumption | assumption].
  - intros s. unfold try_except. destruct (Fc s) as [Ps Fs].
    destruct (c s) as [[a|e] s1]; cbn [fst snd] in *; [split; assumption|].
    destruct (is_Exception e); [|split; assumption].
    destruct (Hh e) as [_ Fh]. destruct (Fh s1) as [Ph Fh1]. split.
    + congruence.
    + intros p Hp. rewrite (Fh1 p Hp). now apply Fs.
Qed.

Lemma replays_for_each {A S} (W : path -> bool) (l : list A)
    (body : A -> S -> M S) :
  Forall (fun x => forall s, replays W W (body x s)) l ->
  forall s, replays W W (for_each l body s).
Proof.
  induction 1 as [|x l Hx Hl IH]; intros s; cbn [for_each].
  - apply replays_ret.
  - apply replays_bind1; [apply Hx | exact IH].
Qed.

(** Reading a path outside the set and writing a path inside it. *)
Lemma replays_resize_image1 (W : path -> bool) src dst size ma sm :
  W src = false -> W dst = true ->
  replays W W (resize_image src dst size ma sm).
Proof.
  intros Hs Hd. apply replays_resize_image; try assumption. congruence.
Qed.

Lemma replays_pure {A} (R W : path -> bool) (c : M A) (r : outcome A) :
  (forall w, c w = (r, w)) -> replays R W c.
Proof.
  intros H. apply replays_quiet. intros w. exists r, [].
  rewrite H, app_nil_r. split; [now destruct w | intros w'; now rewrite H].
Qed.

Lemma replays_image_new (R W : path -> bool) (size : Z * Z) :
  replays R W (image_new size).
Proof.
  unfold image_new. destruct (andb _ _); [apply replays_ret | apply replays_raise].
Qed.

(** ** Replaying the catalogs *)

Ltac side := first [assumption | vm_compute; reflexivity].

Ltac replay_step :=
  lazymatch goal with
  | |- replays _ _ (bind _ _) => apply replays_bind1; [|intros ?]
  | |- replays _ _ (print _) => apply replays_print
  | |- replays _ _ (ret _) => apply replays_ret
  | |- replays _ _ (raise _) => apply replays_raise
  | |- replays _ _ (ensure_directory _) => apply replays_ensure_directory
  | |- replays _ _ (image_new _) => apply replays_image_new
  | |- replays _ _ (try_except _ _) => apply replays_try_except; [|intros ?]
  | |- replays _ _ (resize_image _ _ _ _ _) =>
      apply replays_resize_image1; side
  | |- replays _ _ (copy2 _ _) => apply replays_copy2; side
  | |- replays _ _ (path_exists _) => apply replays_path_exists; side
  | |- replays _ _ (write_file _ _) => apply replays_write_file; side
  | |- replays _ _ (for_each _ _ _) => apply replays_for_each
  | |- replays _ _ (match ?x with _ => _ end) => destruct x
  | |- Forall _ [] => apply List.Forall_nil
  | |- Forall _ (_ :: _) => apply List.Forall_cons; [intros ?|]
  | |- replays _ _ _ => progress cbv beta iota zeta
  end.

Ltac replay := repeat replay_step.

Lemma replays_generate_web_icons (W : path -> bool) (src : path) :
  W src = false ->
  (forall p, In p web_icon_outputs -> W p = true) ->
  replays W W (generate_web_icons src).
Proof.
  intros Hsrc Hout.
  pose proof (Hout (get_project_path "public/icons/icon-192x192.png")
                ltac:(in_list)) as H192.
  pose proof (Hout (get_project_path "public/icons/icon-512x512.png")
                ltac:(in_list)) as H512.
  unfold generate_web_icons, resize_image_default, web_sizes. replay.
Qed.

Lemma replays_web_icons :
  replays outputs outputs (generate_web_icons (master "icon")).
Proof.
  apply replays_generate_web_icons; [reflexivity|].
  intros p Hp. cbn in Hp.
  repeat (destruct Hp as [<-|Hp]; [reflexivity|]). contradiction.
Qed.

Lemma replays_web_logos :
  replays later_outputs later_outputs (generate_web_logos (master "logo")).
Proof.
  unfold generate_web_logos, resize_variants, web_logo_variants,
    web_icon_variants.
  replay.
Qed.

Lemma replays_web_logos_inverted :
  replays later_outputs later_outputs
    (generate_web_logos_inverted (master "logo_inverted")).
Proof.
  unfold generate_web_logos_inverted, resize_variants,
    web_logo_inverted_variants.
  replay.
Qed.

Lemma replays_ios_icons :
  replays later_outputs later_outputs (generate_ios_icons (master "icon")).
Proof.
  unfold generate_ios_icons, resize_named, resize_image_default, ios_sizes,
    capacitor_appicon_defaults.
  replay.
Qed.

Lemma replays_ios_logos :
  replays later_outputs later_outputs (generate_ios_logos (master "logo")).
Proof.
  unfold generate_ios_logos, resize_named, ios_logo_sizes. replay.
Qed.

Lemma replays_ios_logos_inverted :
  replays later_outputs later_outputs
    (generate_ios_logos_inverted (master "logo_inverted")).
Proof.
  unfold generate_ios_logos_inverted, resize_named, ios_logo_inverted_sizes.
  replay.
Qed.

Lemma replays_save_png (R W : path -> bool) (im : image) (p : path) (opt : bool) :
  W p = true -> replays R W (save_png im p opt).
Proof. apply replays_write_file. Qed.

Lemma replays_adaptive_icon_xmls :
  replays later_outputs later_outputs create_android_adaptive_icon_xmls.
Proof.
  unfold create_android_adaptive_icon_xmls, write_text. replay.
Qed.

Lemma replays_android_icons :
  replays later_outputs later_outputs (generate_android_icons (master "icon")).
Proof.
  unfold generate_android_icons, resize_image_default, android_densities.
  repeat first
    [ apply replays_adaptive_icon_xmls
    | match goal with
      | |- replays _ _ (save_png _ _ _) => apply replays_save_png; side
      | |- replays _ _ (android_icons_for_density _ _ _) =>
          unfold android_icons_for_density, resize_image_default
      end
    | replay_step ].
Qed.

Lemma replays_android_logos_named (title label filename : string) (src : path) :
  later_outputs src = false ->
  (forall density scale, In (density, scale) android_logo_densities ->
     later_outputs (get_project_path
        (("android/app/src/main/res/drawable-" +:+ density) +:+ "/" +:+ filename))
     = true) ->
  later_outputs (get_project_path
     ("android/app/src/main/res/drawable/" +:+ filename)) = true ->
  replays later_outputs later_outputs
    (generate_android_logos_named title label filename src).
Proof.
  intros Hsrc Hd Hbase.
  unfold generate_android_logos_named.
  repeat first
    [ match goal with
      | |- replays _ _ (for_each android_logo_densities _ _) =>
          apply replays_for_each, List.Forall_forall; intros [density scale] Hin s
      | |- replays _ _ (resize_image _ _ _ _ _) =>
          apply replays_resize_image1; [assumption | first [assumption | now apply (Hd density scale)]]
      end
    | replay_step ].
Qed.

Lemma replays_android_logos :
  replays later_outputs later_outputs (generate_android_logos (master "logo")).
Proof.
  apply replays_android_logos_named; [reflexivity | | reflexivity].
  intros density scale Hin. cbn in Hin.
  repeat (destruct Hin as [[= <- <-]|Hin]; [reflexivity|]). contradiction.
Qed.

Lemma replays_android_logos_inverted :
  replays later_outputs later_outputs
    (generate_android_logos_inverted (master "logo_inverted")).
Proof.
  apply replays_android_logos_named; [reflexivity | | reflexivity].
  intros density scale Hin. cbn in Hin.
  repeat (destruct Hin as [[= <- <-]|Hin]; [reflexivity|]). contradiction.
Qed.

Lemma replays_android_splash_icons :
  replays later_outputs later_outputs generate_android_splash_icons.
Proof.
  unfold generate_android_splash_icons, splash_icon_sizes. replay.
Qed.

Lemma replays_first_missing (W : path -> bool) (l : list path) :
  Forall (fun p => W p = false) l -> replays W W (first_missing l).
Proof.
  induction 1 as [|p l Hp Hl IH]; cbn [first_missing].
  - apply replays_ret.
  - apply replays_bind1; [now apply replays_path_exists|].
    intros []; [exact IH | apply replays_ret].
Qed.

Lemma replays_splash_screens :
  replays later_outputs later_outputs generate_splash_screens.
Proof.
  unfold generate_splash_screens, ios_splash_sizes, capacitor_splash_defaults,
    android_splash_densities.
  repeat first
    [ apply replays_android_splash_icons
    | match goal with
      | |- replays _ _ (first_missing _) =>
          apply replays_first_missing;
          repeat (apply List.Forall_cons; [reflexivity|]); apply List.Forall_nil
      end
    | replay_step ].
Qed.

Lemma replays_ios_contents_json :
  replays later_outputs later_outputs create_ios_contents_json.
Proof.
  unfold create_ios_contents_json, json_dump. replay.
Qed.

Lemma dict_set_idem (key : string) (value : json) (d : list (string * json)) :
  dict_set key value (dict_set key value d) = dict_set key value d.
Proof.
  induction d as [|[k v] d IH]; cbn.
  - now rewrite String.eqb_refl.
  - destruct (String.eqb k key) eqn:E; cbn; rewrite E; [reflexivity|].
    now rewrite IH.
Qed.

Lemma update_manifest_effect (w : world) :
  exists ms,
    update_manifest_json w
    = (Ret tt,
       World (match manifest_effect (files w !! manifest_path)
                      (writable w manifest_path) with
              | Some f => <[manifest_path := f]> (files w)
              | None => files w
              end) (writable w) (printed w ++ ms)).
Proof.
  unfold update_manifest_json, manifest_effect. unfold_monad.
  cbn -[manifest_path].
  destruct (files w !! manifest_path) as [f|] eqn:E; cbn -[manifest_path].
  - rewrite E. destruct f as [| | |doc]; cbn -[manifest_path];
      try (eexists; rewrite <- app_assoc; reflexivity).
    destruct doc; cbn -[manifest_path];
      try (eexists; rewrite <- app_assoc; reflexivity).
    destruct (writable w manifest_path); cbn -[manifest_path];
      eexists; rewrite <- ?app_assoc; reflexivity.
  - eexists; rewrite <- app_assoc; reflexivity.
Qed.

Lemma manifest_after_idem (found : option file) (can_write : bool) :
  manifest_after (manifest_after found can_write) can_write
  = manifest_after found can_write.
Proof.
  unfold manifest_after, manifest_effect.
  destruct found as [[| | |[| | | | |d]]|]; try reflexivity.
  destruct can_write; [|reflexivity].
  now rewrite dict_set_idem.
Qed.

Lemma update_manifest_files (w : world) (q : path) :
  files (snd (update_manifest_json w)) !! q
  = if decide (q = manifest_path)
    then manifest_after (files w !! manifest_path) (writable w manifest_path)
    else files w !! q.
Proof.
  destruct (update_manifest_effect w) as (ms & ->). cbn [snd files].
  unfold manifest_after.
  destruct (decide (q = manifest_path)) as [->|Hne].
  - destruct (manifest_effect _ _); [apply lookup_insert_eq | reflexivity].
  - destruct (manifest_effect _ _); [|reflexivity].
    apply lookup_insert_ne. congruence.
Qed.

Lemma replays_update_manifest_json :
  replays nowhere later_outputs update_manifest_json.
Proof.
  split.
  - intros s t fin Hperm Hag Hfin. split.
    + destruct (update_manifest_effect s) as (ms & ->).
      destruct (update_manifest_effect t) as (mt & ->). reflexivity.
    + intros q. left. rewrite !update_manifest_files, Hperm.
      destruct (decide (q = manifest_path)) as [->|Hne].
      * destruct (Hag manifest_path) as [->|Hdone]; [reflexivity|].
        rewrite Hdone, (Hfin manifest_path eq_refl), update_manifest_files.
        destruct (decide (manifest_path = manifest_path)); [|contradiction].
        apply manifest_after_idem.
      * destruct (Hag q) as [H|H]; [exact H|].
        rewrite H, (Hfin q eq_refl), update_manifest_files.
        destruct (decide (q = manifest_path)); [contradiction | reflexivity].
  - intros s. destruct (update_manifest_effect s) as (ms & ->). cbn.
    split; [reflexivity|]. intros p Hp.
    destruct (manifest_effect _ _); [|reflexivity].
    apply lookup_insert_ne. intros <-. discriminate.
Qed.

Lemma replays_phase {A B} (W : path -> bool) (c : M A) (k : A -> M B) :
  replays W W c -> (forall a, replays nowhere W (k a)) ->
  replays nowhere W (bind c k).
Proof.
  intros Hc Hk. apply (replays_bind W W nowhere W W); auto.
Qed.

Lemma replays_missing_paths (W : path -> bool) (l : list path) :
  Forall (fun p => W p = false) l -> replays W W (missing_paths l).
Proof.
  induction 1 as [|p l Hp Hl IH]; cbn [missing_paths].
  - apply replays_ret.
  - apply replays_bind1; [now apply replays_path_exists|]. intros found.
    apply replays_bind1; [exact IH|]. intros rest. apply replays_ret.
Qed.

Lemma replays_banner (R W : path -> bool) (title : string) :
  replays R W (banner title).
Proof.
  apply replays_quiet. intros w. eexists (Ret tt), [_; _; _].
  split; [|reflexivity]. unfold banner, bind, print. cbn.
  rewrite <- !app_assoc. reflexivity.
Qed.

Ltac phase := apply replays_phase; [|intros ?].

Lemma replays_main : replays nowhere outputs main.
Proof.
  unfold main.
  phase; [apply replays_print|].
  phase.
  { apply replays_missing_paths.
    repeat (apply List.Forall_cons; [reflexivity|]). apply List.Forall_nil. }
  match goal with |- replays _ _ (match ?x with _ => _ end) => destruct x end.
  - phase; [apply replays_print|].
    phase; [apply replays_banner|].
    phase; [apply replays_web_icons|].
    apply (replays_weaken nowhere nowhere later_outputs outputs);
      [|auto | intros p Hp; unfold later_outputs; now rewrite Hp].
    phase; [apply replays_web_logos|].
    phase; [apply replays_web_logos_inverted|].
    phase; [apply replays_banner|].
    phase; [apply replays_ios_icons|].
    phase; [apply replays_ios_logos|].
    phase; [apply replays_ios_logos_inverted|].
    phase; [apply replays_banner|].
    phase; [apply replays_android_icons|].
    phase; [apply replays_android_logos|].
    phase; [apply replays_android_logos_inverted|].
    phase; [apply replays_banner|].
    phase; [apply replays_splash_screens|].
    phase; [apply replays_banner|].
    phase; [apply replays_print|].
    phase; [apply replays_banner|].
    phase; [apply replays_ios_contents_json|].
    apply (replays_bind nowhere later_outputs nowhere nowhere later_outputs);
      [apply replays_update_manifest_json | intros ? | auto | auto].
    repeat lazymatch goal with
           | |- replays _ _ (banner _) => apply replays_banner
           | |- _ => replay_step
           end.
  - apply (replays_weaken outputs nowhere outputs outputs); [|auto|auto].
    repeat first
      [ match goal with
        | |- replays _ _ (for_each _ _ _) =>
            apply replays_for_each, List.Forall_forall; intros ? ? ?
        end
      | replay_step ].
Qed.

(** X1: running the script again on the files a run has left changes none of
    them and ends the same way; and no run ever touches a master. *)
Theorem main_idempotent (w : world) :
  let w1 := snd (main w) in
  fst (main w1) = fst (main w)
  /\ files (snd (main w1)) = files w1
  /\ (forall p, is_master p = true -> files w1 !! p = files w !! p).
Proof.
  intros w1. destruct replays_main as [L F].
  destruct (F w) as [Hperm Hframe].
  destruct (L w w1 w1) as [Hr Hag].
  - exact Hperm.
  - intros p. now right.
  - intros p _. reflexivity.
  - split; [exact Hr|]. split.
    + apply map_eq. intros p. destruct (Hag p) as [H|H]; exact H.
    + intros p Hp. apply Hframe. unfold outputs. now rewrite Hp.
Qed.

(** ** The model of [int(n * 0.7)] *)

Lemma round53_small (p : Z) : Z.log2 p + 1 <= 53 -> Float.round53 p = p.
Proof.
  intros H. unfold Float.round53.
  destruct (Z.leb_spec (Z.log2 p + 1) 53); [reflexivity | lia].
Qed.

(** Rounding moves a positive integer by at most one unit of the last kept
    place, which is at most [p / 2^52]. *)
Lemma round53_bounds (p : Z) :
  0 < p ->
  let r := Float.round53 p in
  p * 2 ^ 52 - p <= r * 2 ^ 52 <= p * 2 ^ 52 + p.
Proof.
  intros Hp r. subst r. unfold Float.round53.
  destruct (Z.leb_spec (Z.log2 p + 1) 53) as [Hs|Hb]; [lia|].
  set (k := Z.log2 p + 1 - 53). assert (Hk : 0 < k) by lia.
  rewrite !Z.shiftr_div_pow2, !Z.shiftl_mul_pow2 by lia.
  pose proof (Z.log2_spec p Hp) as [Hlo Hhi].
  assert (Hpow : 2 ^ Z.log2 p = 2 ^ k * 2 ^ 52).
  { rewrite <- Z.pow_add_r by lia. f_equal. lia. }
  assert (H2k : 0 < 2 ^ k) by (apply Z.pow_pos_nonneg; lia).
  pose proof (Z.div_mod p (2 ^ k) ltac:(lia)) as Hdm.
  pose proof (Z.mod_pos_bound p (2 ^ k) H2k) as Hmb.
  set (q := p / 2 ^ k) in *. set (rm := p mod 2 ^ k) in *.
  replace (p - q * 2 ^ k) with rm by lia.
  assert (Hq : 2 ^ k * q <= p < 2 ^ k * q + 2 ^ k) by lia.
  assert (Hle : 2 ^ k * 2 ^ 52 <= p) by lia.
  destruct (orb _ _); nia.
Qed.

Lemma round53_nonneg (p : Z) : 0 <= p -> 0 <= Float.round53 p.
Proof.
  intros Hp. destruct (Z.eq_dec p 0) as [->|Hne]; [vm_compute; discriminate|].
  pose proof (round53_bounds p ltac:(lia)) as H. cbn zeta in H. nia.
Qed.



Lemma int_mul_0_7_nonpos (n : Z) : n <= 0 -> Float.int_mul_0_7 n <= 0.
Proof.
  intros Hn. unfold Float.int_mul_0_7.
  destruct (Z.leb_spec 0 n) as [H0|Hneg].
  - assert (n = 0) as -> by lia. vm_compute. discriminate.
  - rewrite Z.shiftr_div_pow2 by lia.
    pose proof (round53_nonneg (- n * Float.mant_0_7)
                  ltac:(unfold Float.mant_0_7; lia)) as Hr.
    pose proof (Z.div_pos (Float.round53 (- n * Float.mant_0_7)) (2 ^ 52)
                  Hr ltac:(lia)).
    lia.
Qed.

(** ** [thumbnail] never enlarges *)

Section NoUpscale.
Variables w h x y : Z.
Hypothesis Hw : 0 < w.
Hypothesis Hh : 0 < h.
Hypothesis Hx : 0 < x.
Hypothesis Hy : 0 < y.






End NoUpscale.

(** ** More geometry of [resize_image] *)


Section PaddedGeometry.
Variables (w : world) (src dst : path).
Variables (bytes : list Z) (fmt : image_format) (m : pil_mode) (px : list Z).
Variables sw sh tw th : Z.
Variable sm : bool.
Hypothesis Hsrc :
  files w !! src = Some (Blob bytes (Some (fmt, Decoded m sw sh px))).
Hypothesis Hsw : 0 < sw.
Hypothesis Hsh : 0 < sh.
Hypothesis Hne : (sw, sh) <> (tw, th).
Hypothesis Htw : 2 <= tw.
Hypothesis Hth : 2 <= th.
Hypothesis Hwr : writable w dst = true.

Let bx := fst (fit_box (tw, th) sm).
Let by' := snd (fit_box (tw, th) sm).



End PaddedGeometry.





(** X8: contract violation.  A target with a side that is not positive makes
    the call fail: it returns [False], prints the error line for the
    destination and leaves every file as it was. *)
Theorem nonpositive_size_fails (w : world) (src dst : path)
    (bytes : list Z) (fmt : image_format) (m : pil_mode) (px : list Z)
    (sw sh tw th : Z) (ma sm : bool) :
  files w !! src = Some (Blob bytes (Some (fmt, Decoded m sw sh px))) ->
  0 < sw -> 0 < sh -> tw <= 0 \/ th <= 0 ->
  resize_image src dst (Some (tw, th)) ma sm w
  = (Ret false, add_message (MsgErrorCreating dst) w).
Proof.
  intros Hsrc Hsw Hsh Hbad.
  rewrite (resize_image_readable _ _ _ _ _ _ _ (Decoded m sw sh px) Hsrc eq_refl).
  unfold output_file. cbn zeta.
  destruct (decide (img_size (Decoded m sw sh px) = (tw, th))) as [E|_].
  { injection E as -> ->. lia. }
  assert (Hr : render (Decoded m sw sh px) (tw, th) ma sm = None).
  { unfold render. cbn [fst snd].
    destruct ma.
    - assert (Hbox : forall bx by', bx <= 0 \/ by' <= 0 ->
                thumbnail (as_rgba (Decoded m sw sh px)) (bx, by') = None).
      { intros bx by' Hb. unfold thumbnail.
        replace ((0 <? bx) && (0 <? by')) with false; [reflexivity|].
        symmetry. apply andb_false_iff.
        destruct Hb; [left | right]; apply Z.ltb_ge; assumption. }
      fold (as_rgba (Decoded m sw sh px)).
      destruct sm.
      + rewrite Hbox; [reflexivity|].
        destruct Hbad; [left | right]; now apply int_mul_0_7_nonpos.
      + rewrite Hbox; [reflexivity | assumption].
    - replace ((0 <? tw) && (0 <? th)) with false; [reflexivity|].
      symmetry. apply andb_false_iff.
      destruct Hbad; [left | right]; apply Z.ltb_ge; assumption. }
  rewrite Hr. reflexivity.
Qed.

(** ** Splash catalogs without their masters *)

Lemma first_missing_spec (l : list path) (w : world) :
  first_missing l w = (Ret (List.find (fun p => negb (present w p)) l), w).
Proof.
  induction l as [|p l IH]; [reflexivity|].
  cbn [first_missing List.find]. unfold bind, path_exists. fold (present w p).
  destruct (present w p); cbn [negb]; [exact IH | reflexivity].
Qed.


(** X10: without its master [generate_android_splash_icons] prints the
    warning, writes nothing and reports zero icons. *)
Theorem splash_icons_skipped_without_master (w : world) :
  files w !! splash_icon_master = None ->
  exists w',
    generate_android_splash_icons w = (Ret 0, w')
    /\ files w' = files w
    /\ last (printed w')
       = Some (MsgText "Warning: splash-icon-square-master.png not found - skipping Android 12+ splash icons").
Proof.
  intros Hmiss. unfold generate_android_splash_icons.
  unfold bind at 1. unfold path_exists.
  unfold splash_icon_master in Hmiss. rewrite Hmiss. cbn.
  unfold bind, print, ret. cbn.
  eexists. split; [reflexivity|]. split; [reflexivity | apply last_snoc].
Qed.

(** ** The manifest update never fails the run *)

(** X11: [update_manifest_json] always returns normally, and unless the
    manifest holds a JSON object at a writable path it leaves every file as
    it was (a missing, unparsable or non-object manifest, or a read-only
    one). *)
Theorem update_manifest_contained (w : world) :
  exists w',
    update_manifest_json w = (Ret tt, w')
    /\ writable w' = writable w
    /\ ((forall d, files w !! manifest_path <> Some (JsonFile (JObj d)))
        \/ writable w manifest_path = false ->
        files w' = files w).
Proof.
  destruct (update_manifest_effect w) as (ms & ->).
  eexists. split; [reflexivity|]. split; [reflexivity|].
  intros Hbad. cbn [files]. unfold manifest_effect.
  destruct (files w !! manifest_path) as [[| | |[| | | | |d]]|] eqn:E;
    try reflexivity.
  destruct Hbad as [Hno|Hro].
  - exfalso. now apply (Hno d).
  - now rewrite Hro.
Qed.

(** X12: updating the manifest twice leaves the same files as updating it
    once. *)
Theorem update_manifest_idempotent (w : world) :
  files (snd (update_manifest_json (snd (update_manifest_json w))))
  = files (snd (update_manifest_json w)).
Proof.
  apply map_eq. intros q.
  rewrite (update_manifest_files (snd (update_manifest_json w)) q).
  destruct (decide (q = manifest_path)) as [->|Hne]; [|reflexivity].
  assert (Hw : writable (snd (update_manifest_json w)) = writable w).
  { destruct (update_manifest_effect w) as (ms & ->). reflexivity. }
  rewrite Hw, (update_manifest_files w manifest_path).
  destruct (decide (manifest_path = manifest_path)); [|contradiction].
  apply manifest_after_idem.
Qed.

(** ** Counter accuracy of the iOS icon catalog *)


(** ** When the run completes *)

Section Returns.
Variable perm : path -> bool.

Lemma returns_bind {A B} (c : M A) (k : A -> M B) :
  returns perm c -> (forall a, returns perm (k a)) -> returns perm (bind c k).
Proof.
  intros Hc Hk w Hw. unfold bind.
  destruct (Hc w Hw) as (a & w1 & -> & Hw1). now apply Hk.
Qed.

Lemma returns_ret {A} (a : A) : returns perm (ret a).
Proof. intros w Hw. now exists a, w. Qed.

Lemma returns_print (m : message) : returns perm (print m).
Proof. intros w Hw. eexists _, _. split; [reflexivity | exact Hw]. Qed.

Lemma returns_ensure_directory (d : string) : returns perm (ensure_directory d).
Proof. apply returns_ret. Qed.

Lemma returns_path_exists (p : path) : returns perm (path_exists p).
Proof. intros w Hw. eexists _, _. split; [reflexivity | exact Hw]. Qed.

Lemma returns_resize_image src dst size ma sm :
  returns perm (resize_image src dst size ma sm).
Proof.
  intros w Hw. destruct (resize_image_effect src dst size ma sm w) as (m & ->).
  destruct (resize_effect _ _ _ _ _ _); eexists _, _;
    (split; [reflexivity | exact Hw]).
Qed.

Lemma returns_write_file (p : path) (f : file) :
  perm p = true -> returns perm (write_file p f).
Proof.
  intros Hp w Hw. unfold write_file. rewrite Hw, Hp.
  eexists _, _. split; [reflexivity | exact Hw].
Qed.

Lemma returns_try_except {A} (c : M A) (h : exn -> M A) :
  contained c -> (forall e, returns perm (h e)) ->
  returns perm (try_except c h).
Proof.
  intros Hc Hh w Hw. unfold try_except.
  destruct (Hc w) as [Hp He]. destruct (c w) as [[a|e] w1]; cbn in Hp, He.
  - exists a, w1. split; [reflexivity | congruence].
  - rewrite (He e eq_refl). apply Hh. congruence.
Qed.

Lemma returns_for_each {A S} (l : list A) (body : A -> S -> M S) :
  (forall x s, returns perm (body x s)) ->
  forall s, returns perm (for_each l body s).
Proof.
  intros Hbody. induction l as [|x l IH]; intros s; cbn [for_each].
  - apply returns_ret.
  - apply returns_bind; [apply Hbody | exact IH].
Qed.

End Returns.

Lemma contained_copy_block (src dst : path) (m : message) (n : Z) :
  contained (copy2 src dst ;;; print m ;;; ret n).
Proof.
  intros w. unfold bind, copy2, write_file, print, ret.
  destruct (files w !! src); [|split; [reflexivity | intros e' E'; inversion E'; reflexivity]].
  destruct (decide (src = dst)); [split; [reflexivity | intros e' E'; inversion E'; reflexivity]|].
  destruct (writable w dst); cbn;
    (split; [reflexivity | intros e' E'; inversion E'; reflexivity]).
Qed.

Lemma contained_background_block (size : Z * Z) (p : path) (n : Z) :
  contained (bg_img <- image_new size ;; save_png bg_img p true ;;; ret n).
Proof.
  intros w. unfold bind, image_new, save_png, write_file, ret, raise.
  destruct (andb _ _); cbn;
    [|split; [reflexivity | intros e' E'; inversion E'; reflexivity]].
  destruct (writable w p); cbn;
    (split; [reflexivity | intros e' E'; inversion E'; reflexivity]).
Qed.

Lemma returns_update_manifest_json (perm : path -> bool) :
  returns perm update_manifest_json.
Proof.
  intros w Hw. destruct (update_manifest_effect w) as (ms & ->).
  eexists _, _. split; [reflexivity | exact Hw].
Qed.

Lemma returns_first_missing (perm : path -> bool) (l : list path) :
  returns perm (first_missing l).
Proof.
  intros w Hw. rewrite first_missing_spec. eexists _, _.
  split; [reflexivity | exact Hw].
Qed.

Lemma returns_banner (perm : path -> bool) (title : string) :
  returns perm (banner title).
Proof.
  intros w Hw. eexists _, _. split; [reflexivity | exact Hw].
Qed.

Ltac run_step :=
  lazymatch goal with
  | |- returns _ (bind _ _) => apply returns_bind; [|intros ?]
  | |- returns _ (print _) => apply returns_print
  | |- returns _ (ret _) => apply returns_ret
  | |- returns _ (ensure_directory _) => apply returns_ensure_directory
  | |- returns _ (banner _) => apply returns_banner
  | |- returns _ (resize_image _ _ _ _ _) => apply returns_resize_image
  | |- returns _ (path_exists _) => apply returns_path_exists
  | |- returns _ (first_missing _) => apply returns_first_missing
  | |- returns _ update_manifest_json => apply returns_update_manifest_json
  | |- returns _ (write_file _ _) => apply returns_write_file; assumption
  | |- returns _ (try_except _ _) =>
      apply returns_try_except;
      [first [apply contained_copy_block | apply contained_background_block]
      |intros ?]
  | |- returns _ (for_each _ _ _) => apply returns_for_each; intros ? ?
  | |- returns _ (match ?x with _ => _ end) => destruct x
  | |- returns _ ((match ?x with _ => _ end) _) => destruct x
  | |- returns _ _ => progress cbv beta iota zeta
  end.

Ltac run := repeat run_step.




(** ** What one call can change *)


(** ** The iOS descriptors *)

(** X14: [create_ios_contents_json] writes the two descriptors in order and
    has no [try]: if the first cannot be written it raises with nothing
    changed; if only the second cannot, it raises after the first has been
    written; otherwise both hold their descriptor and no other file
    changes. *)
Theorem ios_contents_json_outcomes (w : world) :
  (writable w appicon_contents_path = false ->
   exists w', create_ios_contents_json w
              = (Raise (PermissionError appicon_contents_path), w')
              /\ files w' = files w)
  /\ (writable w appicon_contents_path = true ->
      writable w splash_contents_path = false ->
      exists w', create_ios_contents_json w
                 = (Raise (PermissionError splash_contents_path), w')
                 /\ files w' = <[appicon_contents_path := JsonFile appicon_contents]>
                                 (files w))
  /\ (writable w appicon_contents_path = true ->
      writable w splash_contents_path = true ->
      exists w', create_ios_contents_json w = (Ret tt, w')
                 /\ files w'
                    = <[splash_contents_path := JsonFile splash_contents]>
                        (<[appicon_contents_path := JsonFile appicon_contents]>
                           (files w))).
Proof.
  unfold appicon_contents_path, splash_contents_path.
  unfold create_ios_contents_json. unfold_monad.
  cbn [files writable printed]. unfold set_files. cbn [files writable printed].
  change ("ios/App/App/Assets.xcassets/AppIcon.appiconset" +:+ "/Contents.json")
    with "ios/App/App/Assets.xcassets/AppIcon.appiconset/Contents.json".
  change ("ios/App/App/Assets.xcassets/Splash.imageset" +:+ "/Contents.json")
    with "ios/App/App/Assets.xcassets/Splash.imageset/Contents.json".
  repeat split.
  - intros ->. eexists. split; reflexivity.
  - intros H1 H2. rewrite H1. cbn [files writable printed]. rewrite H2.
    eexists. split; reflexivity.
  - intros H1 H2. rewrite H1. cbn [files writable printed]. rewrite H2.
    eexists. split; reflexivity.
Qed.

(** ** Relative and project-root destinations *)



(** ** Instances *)






Lemma nonpositive_size_fails_witness :
  resize_image icon_master sample_out (Some (0, 64)) true false
    (one_master icon_master (master_file PNG RGBA 1024 1024))
  = (Ret false,
     add_message (MsgErrorCreating sample_out)
       (one_master icon_master (master_file PNG RGBA 1024 1024))).
Proof.
  apply (nonpositive_size_fails
           (one_master icon_master (master_file PNG RGBA 1024 1024))
           icon_master sample_out [] PNG RGBA [] 1024 1024 0 64 true false);
    [reflexivity | lia | lia | left; lia].
Defined.


Lemma splash_icons_skipped_without_master_witness :
  exists w',
    generate_android_splash_icons
      (one_master icon_master (master_file PNG RGBA 1024 1024)) = (Ret 0, w')
    /\ files w' = files (one_master icon_master (master_file PNG RGBA 1024 1024))
    /\ last (printed w')
       = Some (MsgText "Warning: splash-icon-square-master.png not found - skipping Android 12+ splash icons").
Proof.
  apply (splash_icons_skipped_without_master
           (one_master icon_master (master_file PNG RGBA 1024 1024))).
  reflexivity.
Defined.



Lemma update_manifest_contained_witness :
  exists w',
    update_manifest_json
      (World {[ manifest_path := JsonFile (JArr []) ]} (fun _ => true) [])
    = (Ret tt, w')
    /\ files w' = {[ manifest_path := JsonFile (JArr []) ]}.
Proof.
  destruct (update_manifest_contained
              (World {[ manifest_path := JsonFile (JArr []) ]} (fun _ => true) []))
    as (w' & E & _ & H).
  exists w'. split; [exact E|]. apply H. left. intros d. discriminate.
Defined.

Lemma ios_contents_json_outcomes_witness :
  exists w',
    create_ios_contents_json healthy_world = (Ret tt, w')
    /\ files w'
       = <[splash_contents_path := JsonFile splash_contents]>
           (<[appicon_contents_path := JsonFile appicon_contents]>
              (files healthy_world)).
Proof.
  apply (proj2 (proj2 (ios_contents_json_outcomes healthy_world)));
    reflexivity.
Defined.

(** ** Aspect ratio of the thumbnail *)

Section AspectKept.
Variables w h x y : Z.
Hypothesis Hw : 0 < w.
Hypothesis Hh : 0 < h.
Hypothesis Hx : 0 < x.
Hypothesis Hy : 0 < y.





End AspectKept.



(** ** The copied web icon *)



